(** * Adaptive manifold filter (ximgproc) over exact real arithmetic

    A shallow embedding of [modules/ximgproc/src/adaptive_manifold_filter_n.cpp].

    Numbers.  Every [float] and [double] of the source is a real number here:
    rounding, overflow, underflow and NaN are not represented, and the casts
    between [float] and [double] are the identity.  The [int] values that
    steer the recursion (tree levels, iteration counts) are in [Z]; sizes,
    channel counts and loop indices are natural numbers.

    Images.  A single-channel [cv::Mat] is the list of its rows; [m.ptr(y)] is
    the row [m !!! y], and [row[x]] is [row !!! x].  Reading outside a buffer
    is undefined in C++; the total lookup returns the default element there and
    an update outside the buffer leaves it unchanged.  A [std::vector<Mat>] is
    a list of planes.  A matrix is a value: a copy of a header is a copy of
    the contents, and the in-place kernels are written as updates of the one
    matrix they work on.  Headers that share a buffer across calls (the planes
    of [jointCn] after [jointCn = srcCn]) are indistinguishable from copies;
    the statements that compare calls on two objects take objects that hold
    no planes of an earlier call. *)

From Stdlib Require Import Reals Lra Lia ZArith Zfloor.
From stdpp Require Import base list.

Open Scope R_scope.

#[global] Instance R_inhabited : Inhabited R := populate 0.

(** ** Matrices *)

Abbreviation Mat A := (list (list A)) (only parsing).

Definition rows {A} (m : Mat A) : nat := length m.

Definition cols {A} (m : Mat A) : nat :=
  match m with
  | [] => 0%nat
  | r :: _ => length r
  end.

(** [m.at(y, x)] *)
Definition at2 {A} `{Inhabited A} (m : Mat A) (y x : nat) : A := (m !!! y) !!! x.

(** A matrix with [h] rows of [w] entries each. *)
Definition has_size {A} (h w : nat) (m : Mat A) : Prop :=
  length m = h ∧ Forall (λ r, length r = w) m.

(** [Mat(h, w, v)] and [Mat::zeros] *)
Definition Mat_fill {A} (h w : nat) (v : A) : Mat A := replicate h (replicate w v).

(** [m.create(h, w)]: a buffer that already has the requested size is kept
    with its contents; otherwise a new one is allocated, whose contents are
    unspecified.  Both cases are covered by cutting or padding the old buffer
    to the requested size: the contents left over are whatever the object held
    before. *)
Definition Mat_create {A} `{Inhabited A} (h w : nat) (old : Mat A) : Mat A :=
  resize h (replicate w inhabitant) (map (resize w inhabitant) old).

(** Element-wise operations of the core module ([cv::exp], [cv::multiply],
    [cv::add], [cv::subtract], [cv::compare], [cv::bitwise_and], ...).  OpenCV
    requires the operands to have one size. *)
Definition mat_map {A B} (f : A → B) (m : Mat A) : Mat B := map (map f) m.

Definition mat_zip {A B C} (f : A → B → C) (a : Mat A) (b : Mat B) : Mat C :=
  zip_with (zip_with f) a b.

(** [cv::divide] of this OpenCV generation: a zero divisor gives zero. *)
Definition cv_div (x y : R) : R :=
  if Req_dec_T y 0 then 0 else x / y.

(** [std::vector::resize(n)] on a vector of matrices: new slots hold empty
    matrices. *)
Definition vec_resize {A} (n : nat) (v : list (Mat A)) : list (Mat A) := resize n [] v.

(** ** Row kernels of [edgeaware_filters_common]

    The loops of this file work on rows through these kernels.  Each kernel
    visits the indices [0 .. w-1] in order and writes [dst[i]]. *)

(** [for (i = 0; i < w; i++) dst[i] = g(i, dst[i]);] *)
Definition for_each {A} `{Inhabited A} (w : nat) (g : nat → A → A) (dst : list A) : list A :=
  fold_left (λ d i, <[i := g i (d !!! i)]> d) (seq 0 w) dst.

(** Modelled from the spec: [sqr_dif] of [edgeaware_filters_common], which is
    not part of this file.  [dst[i] = (a[i] - b[i])^2], the first term of
    [d2(p) = Σ_c (eta_k_c(p) − joint_c(p))^2]. *)
Definition sqr_dif (dst a b : list R) (w : nat) : list R :=
  for_each w (λ i _, (a !!! i - b !!! i) * (a !!! i - b !!! i)) dst.

(** Modelled from the spec: [add_sqr_dif] of [edgeaware_filters_common].
    [dst[i] += (a[i] - b[i])^2], the further terms of the sum over the guide
    channels. *)
Definition add_sqr_dif (dst a b : list R) (w : nat) : list R :=
  for_each w (λ i d, d + (a !!! i - b !!! i) * (a !!! i - b !!! i)) dst.

(** Modelled from the spec: [min_] of [edgeaware_filters_common].
    [dst[i] = min(a[i], b[i])], as in [min_dist2 ← min(min_dist2, d2)]. *)
Definition min_ (dst a b : list R) (w : nat) : list R :=
  for_each w (λ i _, Rmin (a !!! i) (b !!! i)) dst.

(** Modelled from the spec: [mul] of [edgeaware_filters_common].
    [dst[i] = a[i] * k]. *)
Definition mul (dst a : list R) (k : R) (w : nat) : list R :=
  for_each w (λ i _, a !!! i * k) dst.

(** Modelled from the spec: [mad] of [edgeaware_filters_common].
    [dst[i] = a[i] * k + c], the term [1 + (sigma_s/sigma_r)^2 · Σ ...] of the
    edge tables. *)
Definition mad (dst a : list R) (k c : R) (w : nat) : list R :=
  for_each w (λ i _, a !!! i * k + c) dst.

(** Modelled from the spec: [sqrt_] of [edgeaware_filters_common].
    [dst[i] = sqrt(a[i])]. *)
Definition sqrt_ (dst a : list R) (w : nat) : list R :=
  for_each w (λ i _, sqrt (a !!! i)) dst.

(** Modelled from the spec: [rf_vert_row_pass] of [edgeaware_filters_common],
    the vertical row-pass relation [cur[x] = cur[x] + a·(prev[x] − cur[x])]. *)
Definition rf_vert_row_pass (cur prev : list R) (a : R) (w : nat) : list R :=
  for_each w (λ x c, c + a * (prev !!! x - c)) cur.

(** [std::memcpy(dst, src, w * sizeof(float))] *)
Definition memcpy (dst src : list R) (w : nat) : list R :=
  for_each w (λ i _, src !!! i) dst.

(** ** [h_filter] *)

(** [const float a = exp(-sqrt(2.0f) / sigma);] *)
Definition h_coef (sigma : R) : R := exp (- sqrt 2 / sigma).

(** [for (x = 1; x < cols; ++x)
      dst_row[x] = src_row[x] + a * (dst_row[x - 1] - src_row[x]);] *)
Definition h_row_forward (a : R) (src_row : list R) (w : nat) (dst_row : list R) : list R :=
  fold_left
    (λ d x, <[x := src_row !!! x + a * (d !!! (x - 1)%nat - src_row !!! x)]> d)
    (seq 1 (w - 1)) dst_row.

(** [for (x = cols - 2; x >= 0; --x)
      dst_row[x] = dst_row[x] + a * (dst_row[x + 1] - dst_row[x]);] *)
Definition h_row_backward (a : R) (w : nat) (dst_row : list R) : list R :=
  fold_left
    (λ d x, <[x := d !!! x + a * (d !!! (x + 1)%nat - d !!! x)]> d)
    (rev (seq 0 (w - 1))) dst_row.

(** The body of the first loop over [y]. *)
Definition h_row_pass (a : R) (src_row : list R) (w : nat) (dst_row : list R) : list R :=
  let dst_row := <[0%nat := src_row !!! 0%nat]> dst_row in
  let dst_row := h_row_forward a src_row w dst_row in
  h_row_backward a w dst_row.

(** The two loops over [y] that call [rf_vert_row_pass]. *)
Definition h_cols_forward (a : R) (h w : nat) (dst : Mat R) : Mat R :=
  fold_left
    (λ d y, <[y := rf_vert_row_pass (d !!! y) (d !!! (y - 1)%nat) a w]> d)
    (seq 1 (h - 1)) dst.

Definition h_cols_backward (a : R) (h w : nat) (dst : Mat R) : Mat R :=
  fold_left
    (λ d y, <[y := rf_vert_row_pass (d !!! y) (d !!! (y + 1)%nat) a w]> d)
    (rev (seq 0 (h - 1))) dst.

Definition h_rows (a : R) (src : Mat R) (dst : Mat R) : Mat R :=
  fold_left
    (λ d y, <[y := h_row_pass a (src !!! y) (cols src) (d !!! y)]> d)
    (seq 0 (rows src)) dst.

(** [h_filter(src, dst, sigma)] with [dst] a buffer of its own. *)
Definition h_filter (src : Mat R) (dst : Mat R) (sigma : R) : Mat R :=
  let a := h_coef sigma in
  let dst := Mat_create (rows src) (cols src) dst in
  let dst := h_rows a src dst in
  let dst := h_cols_forward a (rows src) (cols src) dst in
  h_cols_backward a (rows src) (cols src) dst.

(** [h_filter(m, m, sigma)]: [computeEta] passes one matrix as source and
    destination.  [dst.create] is then a no-op and [src_row] and [dst_row]
    point to the same row, so every read of [src_row] sees the row as
    written so far. *)
Definition h_rows_inplace (a : R) (m : Mat R) : Mat R :=
  fold_left
    (λ d y,
       let row := d !!! y in
       let row := <[0%nat := row !!! 0%nat]> row in
       let row :=
         fold_left
           (λ r x, <[x := r !!! x + a * (r !!! (x - 1)%nat - r !!! x)]> r)
           (seq 1 (cols m - 1)) row in
       <[y := h_row_backward a (cols m) row]> d)
    (seq 0 (rows m)) m.

Definition h_filter_inplace (m : Mat R) (sigma : R) : Mat R :=
  let a := h_coef sigma in
  let dst := h_rows_inplace a m in
  let dst := h_cols_forward a (rows m) (cols m) dst in
  h_cols_backward a (rows m) (cols m) dst.

(** ** Scalars of the set-up *)

(** [inline double Log2(double n)] *)
Definition Log2 (n : R) : R := ln n / ln 2.

(** [inline double floor_to_power_of_two(double r)] *)
Definition floor_to_power_of_two (r : R) : R := Rpower 2 (IZR (Zfloor (Log2 r))).

(** Conversion of a [double] to a signed integer of [w] bits truncates toward
    zero.  Outside the range of the integer type the conversion is undefined
    in C++; the conversion instruction of x86 returns the smallest integer
    there, and so does this definition. *)
Definition Ztrunc (x : R) : Z := if Rle_dec 0 x then Zfloor x else Zceil x.

Definition signed_of_double (w : Z) (x : R) : Z :=
  let t := Ztrunc x in
  if ((- 2 ^ (w - 1) <=? t) && (t <? 2 ^ (w - 1)))%Z then t else (- 2 ^ (w - 1))%Z.

(** [cvRound]: to the nearest integer, ties to the even one. *)
Definition cvRound (x : R) : Z :=
  let f := Zfloor x in
  if Rlt_dec (x - IZR f) (1 / 2) then f
  else if Rlt_dec (1 / 2) (x - IZR f) then (f + 1)%Z
  else if Z.even f then f else (f + 1)%Z.

(** [inline int computeManifoldTreeHeight(double sigma_s, double sigma_r)] *)
Definition computeManifoldTreeHeight (sigma_s sigma_r : R) : Z :=
  let Hs := IZR (Zfloor (Log2 sigma_s)) - 1 in
  let Lr := 1 - sigma_r in
  Z.max 2 (signed_of_double 32 (IZR (Zceil (Hs * Lr)))).

(** ** Images and the object state *)

Inductive Depth := CV_8U | CV_8S | CV_16U | CV_16S | CV_32S | CV_32F | CV_64F.

Definition Depth_eqb (a b : Depth) : bool :=
  match a, b with
  | CV_8U, CV_8U | CV_8S, CV_8S | CV_16U, CV_16U | CV_16S, CV_16S
  | CV_32S, CV_32S | CV_32F, CV_32F | CV_64F, CV_64F => true
  | _, _ => false
  end.

Record Size := mkSize { width : nat; height : nat }.

Definition Size_eqb (a b : Size) : bool :=
  (width a =? width b)%nat && (height a =? height b)%nat.

Definition mat_size {A} (m : Mat A) : Size := mkSize (cols m) (rows m).

(** A multi-channel array as its channel planes.  The default-constructed
    [Mat] is [{| im_depth := CV_8U; im_planes := [[]] |}]: one channel, no
    rows. *)
Record Image := mkImage { im_depth : Depth; im_planes : list (Mat R) }.

Definition im_channels (img : Image) : nat := length (im_planes img).

Definition im_size (img : Image) : Size := mat_size (im_planes img !!! 0%nat).

Definition im_empty (img : Image) : bool :=
  (width (im_size img) =? 0)%nat || (height (im_size img) =? 0)%nat.

(** [cv::split]: an empty array releases the destination vector. *)
Definition cv_split (img : Image) : list (Mat R) :=
  if im_empty img then [] else im_planes img.

(** [m.convertTo(dst, CV_32F, alpha)] *)
Definition convertTo_32F (alpha : R) (m : Mat R) : Mat R := mat_map (λ v, v * alpha) m.

(** The [joint] argument of [filter]: the very array passed as [src]
    ([joint_.getObj() == src_.getObj()]) or an array of its own, possibly
    empty. *)
Inductive Joint := JointIsSrc | JointMat (j : Image).

(** What the file takes from the core and image-processing modules and from
    the domain-transform filter of this module. *)
Class OpenCV := {
  (** [cv::resize] with bilinear interpolation to the given rows and columns *)
  cv_resize : Mat R → nat → nat → Mat R;
  (** [createDTFilterRF(adth, adtv, ss, sr, iters)->filter(src, dst)] *)
  dt_filter_rf : Mat R → Mat R → R → R → Z → Mat R → Mat R;
  (** [RNG::fill(vec, RNG::UNIFORM, -0.5, 0.5)] on a vector of [n] entries,
      from a generator state: the entries and the state left behind *)
  rng_fill : Z → nat → list R * Z;
  (** [saturate_cast] of a value to a depth *)
  saturate_cast : Depth → R → R
}.

(** The members of [AdaptiveManifoldFilterN].  [visited] is not a member: it
    records, for the proofs, the [(treeLevel, cluster)] arguments of every call
    of [buildManifoldsAndPerformFiltering] in the order of the calls. *)
Record AMF := mkAMF {
  adjust_outliers_ : bool;
  sigma_s_ : R;
  sigma_r_ : R;
  tree_height_ : Z;
  num_pca_iterations_ : Z;
  useRNG : bool;
  srcSize : Size;
  smallSize : Size;
  jointCnNum : nat;
  srcCnNum : nat;
  jointCn : list (Mat R);
  srcCn : list (Mat R);
  etaFull : list (Mat R);
  sum_w_ki_Psi_blur_ : list (Mat R);
  sum_w_ki_Psi_blur_0_ : Mat R;
  w_k : Mat R;
  Psi_splat_0_small : Mat R;
  Psi_splat_small : list (Mat R);
  minDistToManifoldSquared : Mat R;
  curTreeHeight : Z;
  sigma_r_over_sqrt_2 : R;
  rnd : Z;
  visited : list (Z * Mat Z)
}.

(** [AdaptiveManifoldFilterN::AdaptiveManifoldFilterN()] *)
Definition AMF_new : AMF :=
  mkAMF false 16 (2 / 10) (-1) 1 true
        (mkSize 0 0) (mkSize 0 0) 0 0 [] [] [] [] [] [] [] [] [] 0 0 0 [].

(** Assignment to one member. *)
Definition set_adjust_outliers_ (v : bool) (st : AMF) : AMF :=
  mkAMF v (sigma_s_ st) (sigma_r_ st) (tree_height_ st) (num_pca_iterations_ st)
    (useRNG st) (srcSize st) (smallSize st) (jointCnNum st) (srcCnNum st) (jointCn st)
    (srcCn st) (etaFull st) (sum_w_ki_Psi_blur_ st) (sum_w_ki_Psi_blur_0_ st) (w_k st)
    (Psi_splat_0_small st) (Psi_splat_small st) (minDistToManifoldSquared st)
    (curTreeHeight st) (sigma_r_over_sqrt_2 st) (rnd st) (visited st).

Definition set_sigma_s_ (v : R) (st : AMF) : AMF :=
  mkAMF (adjust_outliers_ st) v (sigma_r_ st) (tree_height_ st) (num_pca_iterations_ st)
    (useRNG st) (srcSize st) (smallSize st) (jointCnNum st) (srcCnNum st) (jointCn st)
    (srcCn st) (etaFull st) (sum_w_ki_Psi_blur_ st) (sum_w_ki_Psi_blur_0_ st) (w_k st)
    (Psi_splat_0_small st) (Psi_splat_small st) (minDistToManifoldSquared st)
    (curTreeHeight st) (sigma_r_over_sqrt_2 st) (rnd st) (visited st).

Definition set_sigma_r_ (v : R) (st : AMF) : AMF :=
  mkAMF (adjust_outliers_ st) (sigma_s_ st) v (tree_height_ st) (num_pca_iterations_ st)
    (useRNG st) (srcSize st) (smallSize st) (jointCnNum st) (srcCnNum st) (jointCn st)
    (srcCn st) (etaFull st) (sum_w_ki_Psi_blur_ st) (sum_w_ki_Psi_blur_0_ st) (w_k st)
    (Psi_splat_0_small st) (Psi_splat_small st) (minDistToManifoldSquared st)
    (curTreeHeight st) (sigma_r_over_sqrt_2 st) (rnd st) (visited st).

Definition set_tree_height_ (v : Z) (st : AMF) : AMF :=
  mkAMF (adjust_outliers_ st) (sigma_s_ st) (sigma_r_ st) v (num_pca_iterations_ st)
    (useRNG st) (srcSize st) (smallSize st) (jointCnNum st) (srcCnNum st) (jointCn st)
    (srcCn st) (etaFull st) (sum_w_ki_Psi_blur_ st) (sum_w_ki_Psi_blur_0_ st) (w_k st)
    (Psi_splat_0_small st) (Psi_splat_small st) (minDistToManifoldSquared st)
    (curTreeHeight st) (sigma_r_over_sqrt_2 st) (rnd st) (visited st).

Definition set_num_pca_iterations_ (v : Z) (st : AMF) : AMF :=
  mkAMF (adjust_outliers_ st) (sigma_s_ st) (sigma_r_ st) (tree_height_ st) v
    (useRNG st) (srcSize st) (smallSize st) (jointCnNum st) (srcCnNum st) (jointCn st)
    (srcCn st) (etaFull st) (sum_w_ki_Psi_blur_ st) (sum_w_ki_Psi_blur_0_ st) (w_k st)
    (Psi_splat_0_small st) (Psi_splat_small st) (minDistToManifoldSquared st)
    (curTreeHeight st) (sigma_r_over_sqrt_2 st) (rnd st) (visited st).

Definition set_useRNG (v : bool) (st : AMF) : AMF :=
  mkAMF (adjust_outliers_ st) (sigma_s_ st) (sigma_r_ st) (tree_height_ st)
    (num_pca_iterations_ st) v (srcSize st) (smallSize st) (jointCnNum st) (srcCnNum st)
    (jointCn st) (srcCn st) (etaFull st) (sum_w_ki_Psi_blur_ st)
    (sum_w_ki_Psi_blur_0_ st) (w_k st) (Psi_splat_0_small st) (Psi_splat_small st)
    (minDistToManifoldSquared st) (curTreeHeight st) (sigma_r_over_sqrt_2 st) (rnd st)
    (visited st).

Definition set_srcSize (v : Size) (st : AMF) : AMF :=
  mkAMF (adjust_outliers_ st) (sigma_s_ st) (sigma_r_ st) (tree_height_ st)
    (num_pca_iterations_ st) (useRNG st) v (smallSize st) (jointCnNum st) (srcCnNum st)
    (jointCn st) (srcCn st) (etaFull st) (sum_w_ki_Psi_blur_ st)
    (sum_w_ki_Psi_blur_0_ st) (w_k st) (Psi_splat_0_small st) (Psi_splat_small st)
    (minDistToManifoldSquared st) (curTreeHeight st) (sigma_r_over_sqrt_2 st) (rnd st)
    (visited st).

Definition set_smallSize (v : Size) (st : AMF) : AMF :=
  mkAMF (adjust_outliers_ st) (sigma_s_ st) (sigma_r_ st) (tree_height_ st)
    (num_pca_iterations_ st) (useRNG st) (srcSize st) v (jointCnNum st) (srcCnNum st)
    (jointCn st) (srcCn st) (etaFull st) (sum_w_ki_Psi_blur_ st)
    (sum_w_ki_Psi_blur_0_ st) (w_k st) (Psi_splat_0_small st) (Psi_splat_small st)
    (minDistToManifoldSquared st) (curTreeHeight st) (sigma_r_over_sqrt_2 st) (rnd st)
    (visited st).

Definition set_jointCnNum (v : nat) (st : AMF) : AMF :=
  mkAMF (adjust_outliers_ st) (sigma_s_ st) (sigma_r_ st) (tree_height_ st)
    (num_pca_iterations_ st) (useRNG st) (srcSize st) (smallSize st) v (srcCnNum st)
    (jointCn st) (srcCn st) (etaFull st) (sum_w_ki_Psi_blur_ st)
    (sum_w_ki_Psi_blur_0_ st) (w_k st) (Psi_splat_0_small st) (Psi_splat_small st)
    (minDistToManifoldSquared st) (curTreeHeight st) (sigma_r_over_sqrt_2 st) (rnd st)
    (visited st).

Definition set_srcCnNum (v : nat) (st : AMF) : AMF :=
  mkAMF (adjust_outliers_ st) (sigma_s_ st) (sigma_r_ st) (tree_height_ st)
    (num_pca_iterations_ st) (useRNG st) (srcSize st) (smallSize st) (jointCnNum st) v
    (jointCn st) (srcCn st) (etaFull st) (sum_w_ki_Psi_blur_ st)
    (sum_w_ki_Psi_blur_0_ st) (w_k st) (Psi_splat_0_small st) (Psi_splat_small st)
    (minDistToManifoldSquared st) (curTreeHeight st) (sigma_r_over_sqrt_2 st) (rnd st)
    (visited st).

Definition set_jointCn (v : list (Mat R)) (st : AMF) : AMF :=
  mkAMF (adjust_outliers_ st) (sigma_s_ st) (sigma_r_ st) (tree_height_ st)
    (num_pca_iterations_ st) (useRNG st) (srcSize st) (smallSize st) (jointCnNum st)
    (srcCnNum st) v (srcCn st) (etaFull st) (sum_w_ki_Psi_blur_ st)
    (sum_w_ki_Psi_blur_0_ st) (w_k st) (Psi_splat_0_small st) (Psi_splat_small st)
    (minDistToManifoldSquared st) (curTreeHeight st) (sigma_r_over_sqrt_2 st) (rnd st)
    (visited st).

Definition set_srcCn (v : list (Mat R)) (st : AMF) : AMF :=
  mkAMF (adjust_outliers_ st) (sigma_s_ st) (sigma_r_ st) (tree_height_ st)
    (num_pca_iterations_ st) (useRNG st) (srcSize st) (smallSize st) (jointCnNum st)
    (srcCnNum st) (jointCn st) v (etaFull st) (sum_w_ki_Psi_blur_ st)
    (sum_w_ki_Psi_blur_0_ st) (w_k st) (Psi_splat_0_small st) (Psi_splat_small st)
    (minDistToManifoldSquared st) (curTreeHeight st) (sigma_r_over_sqrt_2 st) (rnd st)
    (visited st).

Definition set_etaFull (v : list (Mat R)) (st : AMF) : AMF :=
  mkAMF (adjust_outliers_ st) (sigma_s_ st) (sigma_r_ st) (tree_height_ st)
    (num_pca_iterations_ st) (useRNG st) (srcSize st) (smallSize st) (jointCnNum st)
    (srcCnNum st) (jointCn st) (srcCn st) v (sum_w_ki_Psi_blur_ st)
    (sum_w_ki_Psi_blur_0_ st) (w_k st) (Psi_splat_0_small st) (Psi_splat_small st)
    (minDistToManifoldSquared st) (curTreeHeight st) (sigma_r_over_sqrt_2 st) (rnd st)
    (visited st).

Definition set_sum_w_ki_Psi_blur_ (v : list (Mat R)) (st : AMF) : AMF :=
  mkAMF (adjust_outliers_ st) (sigma_s_ st) (sigma_r_ st) (tree_height_ st)
    (num_pca_iterations_ st) (useRNG st) (srcSize st) (smallSize st) (jointCnNum st)
    (srcCnNum st) (jointCn st) (srcCn st) (etaFull st) v (sum_w_ki_Psi_blur_0_ st)
    (w_k st) (Psi_splat_0_small st) (Psi_splat_small st) (minDistToManifoldSquared st)
    (curTreeHeight st) (sigma_r_over_sqrt_2 st) (rnd st) (visited st).

Definition set_sum_w_ki_Psi_blur_0_ (v : Mat R) (st : AMF) : AMF :=
  mkAMF (adjust_outliers_ st) (sigma_s_ st) (sigma_r_ st) (tree_height_ st)
    (num_pca_iterations_ st) (useRNG st) (srcSize st) (smallSize st) (jointCnNum st)
    (srcCnNum st) (jointCn st) (srcCn st) (etaFull st) (sum_w_ki_Psi_blur_ st) v
    (w_k st) (Psi_splat_0_small st) (Psi_splat_small st) (minDistToManifoldSquared st)
    (curTreeHeight st) (sigma_r_over_sqrt_2 st) (rnd st) (visited st).

Definition set_w_k (v : Mat R) (st : AMF) : AMF :=
  mkAMF (adjust_outliers_ st) (sigma_s_ st) (sigma_r_ st) (tree_height_ st)
    (num_pca_iterations_ st) (useRNG st) (srcSize st) (smallSize st) (jointCnNum st)
    (srcCnNum st) (jointCn st) (srcCn st) (etaFull st) (sum_w_ki_Psi_blur_ st)
    (sum_w_ki_Psi_blur_0_ st) v (Psi_splat_0_small st) (Psi_splat_small st)
    (minDistToManifoldSquared st) (curTreeHeight st) (sigma_r_over_sqrt_2 st) (rnd st)
    (visited st).

Definition set_Psi_splat_0_small (v : Mat R) (st : AMF) : AMF :=
  mkAMF (adjust_outliers_ st) (sigma_s_ st) (sigma_r_ st) (tree_height_ st)
    (num_pca_iterations_ st) (useRNG st) (srcSize st) (smallSize st) (jointCnNum st)
    (srcCnNum st) (jointCn st) (srcCn st) (etaFull st) (sum_w_ki_Psi_blur_ st)
    (sum_w_ki_Psi_blur_0_ st) (w_k st) v (Psi_splat_small st)
    (minDistToManifoldSquared st) (curTreeHeight st) (sigma_r_over_sqrt_2 st) (rnd st)
    (visited st).

Definition set_Psi_splat_small (v : list (Mat R)) (st : AMF) : AMF :=
  mkAMF (adjust_outliers_ st) (sigma_s_ st) (sigma_r_ st) (tree_height_ st)
    (num_pca_iterations_ st) (useRNG st) (srcSize st) (smallSize st) (jointCnNum st)
    (srcCnNum st) (jointCn st) (srcCn st) (etaFull st) (sum_w_ki_Psi_blur_ st)
    (sum_w_ki_Psi_blur_0_ st) (w_k st) (Psi_splat_0_small st) v
    (minDistToManifoldSquared st) (curTreeHeight st) (sigma_r_over_sqrt_2 st) (rnd st)
    (visited st).

Definition set_minDistToManifoldSquared (v : Mat R) (st : AMF) : AMF :=
  mkAMF (adjust_outliers_ st) (sigma_s_ st) (sigma_r_ st) (tree_height_ st)
    (num_pca_iterations_ st) (useRNG st) (srcSize st) (smallSize st) (jointCnNum st)
    (srcCnNum st) (jointCn st) (srcCn st) (etaFull st) (sum_w_ki_Psi_blur_ st)
    (sum_w_ki_Psi_blur_0_ st) (w_k st) (Psi_splat_0_small st) (Psi_splat_small st) v
    (curTreeHeight st) (sigma_r_over_sqrt_2 st) (rnd st) (visited st).

Definition set_curTreeHeight (v : Z) (st : AMF) : AMF :=
  mkAMF (adjust_outliers_ st) (sigma_s_ st) (sigma_r_ st) (tree_height_ st)
    (num_pca_iterations_ st) (useRNG st) (srcSize st) (smallSize st) (jointCnNum st)
    (srcCnNum st) (jointCn st) (srcCn st) (etaFull st) (sum_w_ki_Psi_blur_ st)
    (sum_w_ki_Psi_blur_0_ st) (w_k st) (Psi_splat_0_small st) (Psi_splat_small st)
    (minDistToManifoldSquared st) v (sigma_r_over_sqrt_2 st) (rnd st) (visited st).

Definition set_sigma_r_over_sqrt_2 (v : R) (st : AMF) : AMF :=
  mkAMF (adjust_outliers_ st) (sigma_s_ st) (sigma_r_ st) (tree_height_ st)
    (num_pca_iterations_ st) (useRNG st) (srcSize st) (smallSize st) (jointCnNum st)
    (srcCnNum st) (jointCn st) (srcCn st) (etaFull st) (sum_w_ki_Psi_blur_ st)
    (sum_w_ki_Psi_blur_0_ st) (w_k st) (Psi_splat_0_small st) (Psi_splat_small st)
    (minDistToManifoldSquared st) (curTreeHeight st) v (rnd st) (visited st).

Definition set_rnd (v : Z) (st : AMF) : AMF :=
  mkAMF (adjust_outliers_ st) (sigma_s_ st) (sigma_r_ st) (tree_height_ st)
    (num_pca_iterations_ st) (useRNG st) (srcSize st) (smallSize st) (jointCnNum st)
    (srcCnNum st) (jointCn st) (srcCn st) (etaFull st) (sum_w_ki_Psi_blur_ st)
    (sum_w_ki_Psi_blur_0_ st) (w_k st) (Psi_splat_0_small st) (Psi_splat_small st)
    (minDistToManifoldSquared st) (curTreeHeight st) (sigma_r_over_sqrt_2 st) v
    (visited st).

Definition set_visited (v : list (Z * Mat Z)) (st : AMF) : AMF :=
  mkAMF (adjust_outliers_ st) (sigma_s_ st) (sigma_r_ st) (tree_height_ st)
    (num_pca_iterations_ st) (useRNG st) (srcSize st) (smallSize st) (jointCnNum st)
    (srcCnNum st) (jointCn st) (srcCn st) (etaFull st) (sum_w_ki_Psi_blur_ st)
    (sum_w_ki_Psi_blur_0_ st) (w_k st) (Psi_splat_0_small st) (Psi_splat_small st)
    (minDistToManifoldSquared st) (curTreeHeight st) (sigma_r_over_sqrt_2 st) (rnd st) v.

(** ** Inline members *)

Definition getNormalizer (depth : Depth) : R :=
  match depth with
  | CV_8U => 1 / 255
  | CV_16U => 1 / 65535
  | _ => 1
  end.

Definition getResizeRatio (st : AMF) : R :=
  let df := Rmin (sigma_s_ st / 4) (256 * sigma_r_ st) in
  let df := floor_to_power_of_two df in
  Rmax 1 df.

Definition getSmallSize (st : AMF) : Size :=
  let df := getResizeRatio st in
  mkSize (Z.to_nat (cvRound (INR (width (srcSize st)) * (1 / df))))
         (Z.to_nat (cvRound (INR (height (srcSize st)) * (1 / df)))).

(** The outcome of a member that can throw: [Raise st] is a failed
    [CV_Assert] with the object left as [st]; [Undefined] is an access outside
    a vector or a matrix; [OutOfFuel] belongs to the model of the recursion
    only. *)
Inductive Res (A : Type) : Type :=
| Done (a : A)
| Raise (st : AMF)
| Undefined
| OutOfFuel.

Arguments Done {A} a.
Arguments Raise {A} st.
Arguments Undefined {A}.
Arguments OutOfFuel {A}.

(** The loop over the channels that is shared by [compute_w_k],
    [computeDTHor] and [computeDTVer]: [sqr_dif] for channel 0 and
    [add_sqr_dif] for the others. *)
Definition channels_sqr_dif (cnNum w : nat) (a b : nat → list R) (dstRow : list R) : list R :=
  fold_left
    (λ d cn,
       if (cn =? 0)%nat then sqr_dif d (a cn) (b cn) w
       else add_sqr_dif d (a cn) (b cn) w)
    (seq 0 cnNum) dstRow.

(** ** [compute_w_k] *)

(** The body of the loop over the rows: the row of [dst] and the row of
    [minDistToManifoldSquared] after iteration [i]. *)
Definition compute_w_k_row (st : AMF) (etak : list (Mat R)) (argConst : R)
    (curTreeLevel : Z) (i : nat) (dstRow minDistRow : list R) : list R * list R :=
  let w := width (srcSize st) in
  let dstRow :=
    channels_sqr_dif (jointCnNum st) w
      (λ cn, (etak !!! cn) !!! i) (λ cn, (jointCn st !!! cn) !!! i) dstRow in
  let minDistRow :=
    if adjust_outliers_ st then
      if negb (curTreeLevel =? 1)%Z then min_ minDistRow minDistRow dstRow w
      else memcpy minDistRow dstRow w
    else minDistRow in
  (mul dstRow dstRow argConst w, minDistRow).

(** [compute_w_k(etak, dst, sigma, curTreeLevel)]: the new [dst] and the object
    with [minDistToManifoldSquared] updated. *)
Definition compute_w_k (st : AMF) (etak : list (Mat R)) (dst : Mat R) (sigma : R)
    (curTreeLevel : Z) : Mat R * AMF :=
  let dst := Mat_create (height (srcSize st)) (width (srcSize st)) dst in
  let argConst := - (1 / 2) / (sigma * sigma) in
  let '(dst, minDist) :=
    fold_left
      (λ '(dst, minDist) i,
         let '(dstRow, minDistRow) :=
           compute_w_k_row st etak argConst curTreeLevel i (dst !!! i) (minDist !!! i) in
         (<[i := dstRow]> dst,
          if adjust_outliers_ st then <[i := minDistRow]> minDist else minDist))
      (seq 0 (height (srcSize st))) (dst, minDistToManifoldSquared st) in
  (mat_map exp dst, set_minDistToManifoldSquared minDist st).

(** ** The edge tables of the domain transform *)

Definition computeDT_row (cnNum w : nat) (a b : nat → list R)
    (sigmaRatioSqr lnAlpha : R) (dstRow : list R) : list R :=
  let dstRow := channels_sqr_dif cnNum w a b dstRow in
  let dstRow := mad dstRow dstRow sigmaRatioSqr 1 w in
  let dstRow := sqrt_ dstRow dstRow w in
  mul dstRow dstRow lnAlpha w.

Definition computeDTHor (srcCn : list (Mat R)) (dst : Mat R) (sigma_s sigma_r : R) : Mat R :=
  let cnNum := length srcCn in
  let h := rows (srcCn !!! 0%nat) in
  let w := cols (srcCn !!! 0%nat) in
  let sigmaRatioSqr := (sigma_s / sigma_r) * (sigma_s / sigma_r) in
  let lnAlpha := - sqrt 2 / sigma_s in
  let dst := Mat_create h (w - 1) dst in
  let dst :=
    fold_left
      (λ dst i,
         <[i := computeDT_row cnNum (w - 1)
                  (λ cn, (srcCn !!! cn) !!! i) (λ cn, drop 1 ((srcCn !!! cn) !!! i))
                  sigmaRatioSqr lnAlpha (dst !!! i)]> dst)
      (seq 0 h) dst in
  mat_map exp dst.

Definition computeDTVer (srcCn : list (Mat R)) (dst : Mat R) (sigma_s sigma_r : R) : Mat R :=
  let cnNum := length srcCn in
  let h := rows (srcCn !!! 0%nat) in
  let w := cols (srcCn !!! 0%nat) in
  let dst := Mat_create (h - 1) w dst in
  let sigmaRatioSqr := (sigma_s / sigma_r) * (sigma_s / sigma_r) in
  let lnAlpha := - sqrt 2 / sigma_s in
  let dst :=
    fold_left
      (λ dst i,
         <[i := computeDT_row cnNum w
                  (λ cn, (srcCn !!! cn) !!! i) (λ cn, (srcCn !!! cn) !!! (i + 1)%nat)
                  sigmaRatioSqr lnAlpha (dst !!! i)]> dst)
      (seq 0 (h - 1)) dst in
  mat_map exp dst.

(** ** [computeEigenVector] *)

(** [float dots = 0.0; for (c = 0; c < n; ++c) dots += u[c] * v[c];] *)
Definition dot (u v : list R) (n : nat) : R :=
  fold_left (λ dots c, dots + u !!! c * v !!! c) (seq 0 n) 0.

(** One round of the loop over [i]: [t] is cleared, the rows of [t] at the
    masked pixels are filled, and [dst] becomes the sum of the rows of [t].
    [ind] counts the pixels in row-major order. *)
Definition pca_round (X : Mat R) (mask : Mat Z) (dst : list R) : list R :=
  let t := Mat_fill (rows X) (cols X) 0 in
  let '(t, _) :=
    fold_left
      (λ '(t, ind) y,
         let mask_row := mask !!! y in
         fold_left
           (λ '(t, ind) x,
              let t :=
                if (mask_row !!! x =? 0)%Z then t
                else
                  let X_row := X !!! ind in
                  let dots := dot dst X_row (cols X) in
                  <[ind := for_each (cols X) (λ c _, dots * X_row !!! c) (t !!! ind)]> t in
              (t, S ind))
           (seq 0 (cols mask)) (t, ind))
      (seq 0 (rows mask)) (t, 0%nat) in
  let dst := map (λ _, 0) dst in
  fold_left
    (λ d k, for_each (cols X) (λ c v, v + (t !!! k) !!! c) d)
    (seq 0 (rows X)) dst.

(** The loop [for (i = 0; i < num_pca_iterations; ++i)] on the copy of
    [rand_vec]. *)
Definition power_iteration (X : Mat R) (mask : Mat Z) (num_pca_iterations : Z)
    (rand_vec : list R) : list R :=
  Nat.iter (Z.to_nat num_pca_iterations) (pca_round X mask) rand_vec.

(** [cv::norm(dst)]: the L2 norm. *)
Definition cv_norm (v : list R) : R := sqrt (fold_right (λ x s, x * x + s) 0 v).

Definition computeEigenVector (X : Mat R) (mask : Mat Z) (num_pca_iterations : Z)
    (rand_vec : list R) : list R :=
  let dst := power_iteration X mask num_pca_iterations rand_vec in
  let n := cv_norm dst in
  map (λ v, cv_div v n) dst.

(** ** [computeClusters] *)

(** [merge(planes, m); m.reshape(1, m.total())]: one row per pixel, in
    row-major order, holding the channels of the pixel.  The planes have
    [srcSize], as [CV_DbgAssert(difOreientation.size() == srcSize)] records. *)
Definition merge_pixels (h w : nat) (planes : list (Mat R)) : Mat R :=
  concat (map (λ y, map (λ x, map (λ p, at2 p y x) planes) (seq 0 w)) (seq 0 h)).

(** [m.reshape(1, r)] of a single-channel matrix: the same entries in
    row-major order, in [r] rows. *)
Definition mat_reshape {A} (m : Mat A) (r : nat) : Mat A :=
  let flat := concat m in
  let c := (length flat / r)%nat in
  map (λ y, take c (drop (y * c) flat)) (seq 0 r).

(** [cv::compare(m, 0, dst, CMP_LT)] and [CMP_GE]: 255 where the relation
    holds, 0 elsewhere. *)
Definition compare_LT_0 (m : Mat R) : Mat Z :=
  mat_map (λ v, if Rlt_dec v 0 then 255%Z else 0%Z) m.

Definition compare_GE_0 (m : Mat R) : Mat Z :=
  mat_map (λ v, if Rge_dec v 0 then 255%Z else 0%Z) m.

Definition bitwise_and (a b : Mat Z) : Mat Z := mat_zip Z.land a b.

Section Pipeline.
Context `{OpenCV}.

Definition difEtaSrc (st : AMF) : Mat R :=
  let eta_difCn :=
    for_each (jointCnNum st)
      (λ i _, mat_zip Rminus (jointCn st !!! i) (etaFull st !!! i))
      (replicate (jointCnNum st) []) in
  merge_pixels (height (srcSize st)) (width (srcSize st)) eta_difCn.

(** [initVec] and the object after drawing it. *)
Definition initVec (st : AMF) : list R * AMF :=
  if useRNG st then
    let '(v, s) := rng_fill (rnd st) (jointCnNum st) in
    (v, set_rnd s st)
  else
    (for_each (jointCnNum st)
       (λ i _, if (i mod 2 =? 0)%nat then 1 / 2 else - (1 / 2))
       (replicate (jointCnNum st) 0),
     st).

(** [difOreientation] after the reshape to [srcSize.height] rows. *)
Definition difOrientation (st : AMF) (eigenVec : list R) : Mat R :=
  let o := map (λ X_row, [dot X_row eigenVec (jointCnNum st)]) (difEtaSrc st) in
  mat_reshape o (height (srcSize st)).

(** [computeClusters(cluster, cluster_minus, cluster_plus)]: the two child
    masks and the object (the generator may have advanced). *)
Definition computeClusters (st : AMF) (cluster : Mat Z) : Mat Z * Mat Z * AMF :=
  let X := difEtaSrc st in
  let '(iv, st) := initVec st in
  let eigenVec := computeEigenVector X cluster (num_pca_iterations_ st) iv in
  let o := difOrientation st eigenVec in
  let cluster_minus := bitwise_and (compare_LT_0 o) cluster in
  let cluster_plus := bitwise_and (compare_GE_0 o) cluster in
  (cluster_minus, cluster_plus, st).

(** ** Resizing *)

Definition downsample (st : AMF) (src : Mat R) : Mat R :=
  let df := getResizeRatio st in
  cv_resize src (Z.to_nat (cvRound (INR (rows src) * (1 / df))))
                (Z.to_nat (cvRound (INR (cols src) * (1 / df)))).

Definition upsample (st : AMF) (src : Mat R) : Mat R :=
  cv_resize src (height (srcSize st)) (width (srcSize st)).

(** The vector forms: [dstv.resize(srcv.size())], then one matrix after the
    other. *)
Definition downsample_vec (st : AMF) (srcv dstv : list (Mat R)) : list (Mat R) :=
  for_each (length srcv) (λ i _, downsample st (srcv !!! i)) (vec_resize (length srcv) dstv).

Definition upsample_vec (st : AMF) (srcv dstv : list (Mat R)) : list (Mat R) :=
  for_each (length srcv) (λ i _, upsample st (srcv !!! i)) (vec_resize (length srcv) dstv).

(** ** [computeEta] *)

(** [teta.copyTo(tetaMasked, cluster)]: the entries under a non-zero mask are
    copied. *)
Definition copyTo_masked (src dst : Mat R) (mask : Mat Z) : Mat R :=
  mat_zip (λ d sm, if (sm.2 =? 0)%Z then d else sm.1) dst (mat_zip pair src mask).

Definition computeEta (st : AMF) (teta : Mat R) (cluster : Mat Z)
    (etaDst : list (Mat R)) : list (Mat R) :=
  let tetaMasked := Mat_fill (height (srcSize st)) (width (srcSize st)) 0 in
  let tetaMasked := copyTo_masked teta tetaMasked cluster in
  let sigma_s := sigma_s_ st / getResizeRatio st in
  let tetaMaskedBlur := downsample st tetaMasked in
  let tetaMaskedBlur := h_filter_inplace tetaMaskedBlur sigma_s in
  let etaDst := vec_resize (jointCnNum st) etaDst in
  for_each (jointCnNum st)
    (λ i _,
       let mul := mat_zip Rmult tetaMasked (jointCn st !!! i) in
       let e := downsample st mul in
       let e := h_filter_inplace e sigma_s in
       mat_zip cv_div e tetaMaskedBlur)
    etaDst.

(** ** [RFFilterPass] *)

(** Called with [Psi_splat_dst] and [Psi_splat_0_dst] bound to [Psi_splat] and
    [Psi_splat_0] themselves, so [create] acts on the sources. *)
Definition RFFilterPass (joint Psi_splat : list (Mat R)) (Psi_splat_0 : Mat R)
    (ss sr : R) : list (Mat R) * Mat R :=
  let h := rows (joint !!! 0%nat) in
  let w := cols (joint !!! 0%nat) in
  let cnNum := length Psi_splat in
  let adth := computeDTHor joint [] ss sr in
  let adtv := computeDTVer joint [] ss sr in
  let Psi_splat_0 := Mat_create h w Psi_splat_0 in
  let Psi_splat := vec_resize cnNum Psi_splat in
  let Psi_splat := for_each cnNum (λ _ m, Mat_create h w m) Psi_splat in
  let Psi_splat := for_each cnNum (λ _ m, dt_filter_rf adth adtv ss sr 1 m) Psi_splat in
  (Psi_splat, dt_filter_rf adth adtv ss sr 1 Psi_splat_0).

(** ** [buildManifoldsAndPerformFiltering] *)

(** The part under [//splatting]: [w_k] and [etaFull] are set, and [eta] is
    brought to the small size. *)
Definition splatting (st : AMF) (eta : list (Mat R)) (treeLevel : Z) : AMF * list (Mat R) :=
  let etaSize := mat_size (eta !!! 0%nat) in
  if Size_eqb etaSize (srcSize st) then
    let '(w, st) := compute_w_k st eta (w_k st) (sigma_r_over_sqrt_2 st) treeLevel in
    let st := set_w_k w st in
    let st := set_etaFull eta st in
    (st, downsample_vec st eta eta)
  else
    let st := set_etaFull (upsample_vec st eta (etaFull st)) st in
    let '(w, st) := compute_w_k st (etaFull st) (w_k st) (sigma_r_over_sqrt_2 st) treeLevel in
    (set_w_k w st, eta).

(** The part under [//blurring]. *)
Definition blurring (st : AMF) (eta : list (Mat R)) : AMF :=
  let st := set_Psi_splat_small (vec_resize (srcCnNum st) (Psi_splat_small st)) st in
  let st :=
    set_Psi_splat_small
      (for_each (srcCnNum st)
         (λ si _, downsample st (mat_zip Rmult (srcCn st !!! si) (w_k st)))
         (Psi_splat_small st)) st in
  let st := set_Psi_splat_0_small (downsample st (w_k st)) st in
  let rf_ss := sigma_s_ st / getResizeRatio st in
  let rf_sr := sigma_r_over_sqrt_2 st in
  let '(Psi, Psi_0) :=
    RFFilterPass eta (Psi_splat_small st) (Psi_splat_0_small st) rf_ss rf_sr in
  set_Psi_splat_0_small Psi_0 (set_Psi_splat_small Psi st).

(** The part under [//slicing]. *)
Definition slicing (st : AMF) : AMF :=
  let st :=
    set_sum_w_ki_Psi_blur_
      (for_each (srcCnNum st)
         (λ i s,
            let tmp := upsample st (Psi_splat_small st !!! i) in
            let tmp := mat_zip Rmult tmp (w_k st) in
            mat_zip Rplus s tmp)
         (sum_w_ki_Psi_blur_ st)) st in
  let tmp := upsample st (Psi_splat_0_small st) in
  let tmp := mat_zip Rmult tmp (w_k st) in
  set_sum_w_ki_Psi_blur_0_ (mat_zip Rplus (sum_w_ki_Psi_blur_0_ st) tmp) st.

(** The recursion, with [fuel] bounding its depth; [None] is an exhausted
    [fuel]. *)
Fixpoint buildManifoldsAndPerformFiltering (fuel : nat) (st : AMF) (eta : list (Mat R))
    (cluster : Mat Z) (treeLevel : Z) : option AMF :=
  match fuel with
  | O => None
  | S fuel =>
      let st := set_visited (visited st ++ [(treeLevel, cluster)]) st in
      let '(st, eta) := splatting st eta treeLevel in
      let st := blurring st eta in
      let st := slicing st in
      if (treeLevel <? curTreeHeight st)%Z then
        let '(cluster_minus, cluster_plus, st) := computeClusters st cluster in
        let teta := mat_map (λ w, 1 - w) (w_k st) in
        let eta_minus := computeEta st teta cluster_minus (replicate (jointCnNum st) []) in
        let eta_plus := computeEta st teta cluster_plus (replicate (jointCnNum st) []) in
        match buildManifoldsAndPerformFiltering fuel st eta_minus cluster_minus (treeLevel + 1) with
        | Some st =>
            buildManifoldsAndPerformFiltering fuel st eta_plus cluster_plus (treeLevel + 1)
        | None => None
        end
      else Some st
  end.

(** ** [gatherResult] *)

(** The merged output and the object ([alpha] is computed in
    [minDistToManifoldSquared]). *)
Definition gatherResult (st : AMF) (src_ : Image) : Image * AMF :=
  let dDepth := im_depth src_ in
  let dstCn := replicate (srcCnNum st) [] in
  if negb (adjust_outliers_ st) then
    let dstCn :=
      for_each (srcCnNum st)
        (λ i _,
           mat_zip (λ a b, saturate_cast dDepth (cv_div a b))
             (sum_w_ki_Psi_blur_ st !!! i) (sum_w_ki_Psi_blur_0_ st))
        dstCn in
    (mkImage dDepth dstCn, st)
  else
    let sigmaMember := - (1 / 2) / (sigma_r_ st * sigma_r_ st) in
    let st :=
      set_minDistToManifoldSquared
        (mat_map (λ v, v * sigmaMember) (minDistToManifoldSquared st)) st in
    let st :=
      set_minDistToManifoldSquared (mat_map exp (minDistToManifoldSquared st)) st in
    let alpha := minDistToManifoldSquared st in
    let dstCn :=
      for_each (srcCnNum st)
        (λ i _,
           let f := srcCn st !!! i in
           let g := mat_zip cv_div (sum_w_ki_Psi_blur_ st !!! i) (sum_w_ki_Psi_blur_0_ st) in
           let g := mat_zip Rminus g f in
           let g := mat_zip Rmult alpha g in
           let g := mat_zip Rplus g f in
           mat_map (saturate_cast dDepth) g)
        dstCn in
    (mkImage dDepth dstCn, st).

(** ** Set-up *)

Definition initSrcAndJoint (st : AMF) (src_ : Image) (joint_ : Joint) : Res AMF :=
  let st := set_srcSize (im_size src_) st in
  let st := set_smallSize (getSmallSize st) st in
  let st := set_srcCnNum (im_channels src_) st in
  let st := set_srcCn (cv_split src_) st in
  let is32F := Depth_eqb (im_depth src_) CV_32F in
  if negb is32F && (length (srcCn st) <? srcCnNum st)%nat then Undefined
  else
    let st :=
      if negb is32F
      then set_srcCn (for_each (srcCnNum st) (λ _ m, convertTo_32F 1 m) (srcCn st)) st
      else st in
    let joint_is_src :=
      match joint_ with
      | JointIsSrc => true
      | JointMat j => im_empty j
      end in
    if joint_is_src then
      let st := set_jointCnNum (srcCnNum st) st in
      if is32F then Done (set_jointCn (srcCn st) st)
      else
        let st := set_jointCn (vec_resize (jointCnNum st) (jointCn st)) st in
        Done (set_jointCn
                (for_each (jointCnNum st)
                   (λ i _, convertTo_32F (getNormalizer (im_depth src_)) (srcCn st !!! i))
                   (jointCn st)) st)
    else
      let j := match joint_ with JointIsSrc => src_ | JointMat j => j end in
      let st := set_jointCn (cv_split j) st in
      let st := set_jointCnNum (length (jointCn st)) st in
      let jointDepth := im_depth j in
      let jointSize := mat_size (jointCn st !!! 0%nat) in
      if negb (Size_eqb jointSize (srcSize st)
               && (Depth_eqb jointDepth CV_8U || Depth_eqb jointDepth CV_16U
                   || Depth_eqb jointDepth CV_32F))
      then Raise st
      else if negb (Depth_eqb jointDepth CV_32F)
      then Done (set_jointCn
                   (for_each (jointCnNum st)
                      (λ _ m, convertTo_32F (getNormalizer jointDepth) m) (jointCn st)) st)
      else Done st.

Definition initBuffers (st : AMF) (src_ : Image) (joint_ : Joint) : Res AMF :=
  match initSrcAndJoint st src_ joint_ with
  | Done st =>
      let h := height (srcSize st) in
      let w := width (srcSize st) in
      let hs := height (smallSize st) in
      let ws := width (smallSize st) in
      let st := set_jointCn (vec_resize (jointCnNum st) (jointCn st)) st in
      let st := set_Psi_splat_small (vec_resize (jointCnNum st) (Psi_splat_small st)) st in
      let st :=
        set_Psi_splat_small
          (for_each (jointCnNum st) (λ _ m, Mat_create hs ws m) (Psi_splat_small st)) st in
      let st := set_srcCn (vec_resize (srcCnNum st) (srcCn st)) st in
      let st := set_sum_w_ki_Psi_blur_ (vec_resize (srcCnNum st) (sum_w_ki_Psi_blur_ st)) st in
      let st :=
        set_sum_w_ki_Psi_blur_
          (for_each (srcCnNum st) (λ _ _, Mat_fill h w 0) (sum_w_ki_Psi_blur_ st)) st in
      let st := set_sum_w_ki_Psi_blur_0_ (Mat_fill h w 0) st in
      let st := set_w_k (Mat_create h w (w_k st)) st in
      let st := set_Psi_splat_0_small (Mat_create hs ws (Psi_splat_0_small st)) st in
      if adjust_outliers_ st
      then Done (set_minDistToManifoldSquared
                   (Mat_create h w (minDistToManifoldSquared st)) st)
      else Done st
  | Raise st => Raise st
  | Undefined => Undefined
  | OutOfFuel => OutOfFuel
  end.

(** ** [filter] *)

(** [CV_Assert(sigma_s_ >= 1 && (sigma_r_ > 0 && sigma_r_ <= 1))] *)
Definition sigma_check (st : AMF) : bool :=
  (if Rge_dec (sigma_s_ st) 1 then true else false)
  && ((if Rgt_dec (sigma_r_ st) 0 then true else false)
      && (if Rle_dec (sigma_r_ st) 1 then true else false)).

(** [rnd.state = static_cast<int64>(baseCoef * seedCoef)] with
    [baseCoef = numeric_limits<uint64>::max() / 0xFFFF]; the state is an
    unsigned integer of 64 bits. *)
Definition seed_state (seedCoef : R) : Z :=
  let baseCoef := ((2 ^ 64 - 1) / 65535)%Z in
  (signed_of_double 64 (IZR baseCoef * seedCoef) mod 2 ^ 64)%Z.

(** [jointCn[0].at<float>(srcSize.height/2, srcSize.width/2)] *)
Definition seed_sample (st : AMF) : option R :=
  match jointCn st !! 0%nat with
  | Some m =>
      match m !! (height (srcSize st) / 2)%nat with
      | Some r => r !! (width (srcSize st) / 2)%nat
      | None => None
      end
  | None => None
  end.

Definition filter (st : AMF) (src : Image) (joint : Joint) : Res (Image * AMF) :=
  if negb (sigma_check st) then Raise st
  else
    let st := set_num_pca_iterations_ (Z.max 1 (num_pca_iterations_ st)) st in
    match initBuffers st src joint with
    | Done st =>
        let st :=
          set_curTreeHeight
            (if (tree_height_ st <=? 0)%Z
             then computeManifoldTreeHeight (sigma_s_ st) (sigma_r_ st)
             else tree_height_ st) st in
        let st := set_sigma_r_over_sqrt_2 (sigma_r_ st / sqrt 2) st in
        match seed_sample st with
        | None => Undefined
        | Some seedCoef =>
            let st := set_rnd (seed_state seedCoef) st in
            let cluster0 := Mat_fill (height (srcSize st)) (width (srcSize st)) 255%Z in
            let eta0 :=
              for_each (jointCnNum st)
                (λ i e, h_filter (jointCn st !!! i) e (sigma_s_ st))
                (replicate (jointCnNum st) []) in
            let st := set_visited [] st in
            match buildManifoldsAndPerformFiltering
                    (Z.to_nat (curTreeHeight st)) st eta0 cluster0 1 with
            | Some st => Done (gatherResult st src)
            | None => OutOfFuel
            end
        end
    | Raise st => Raise st
    | Undefined => Undefined
    | OutOfFuel => OutOfFuel
    end.

End Pipeline.

(** * Vocabulary of the statements

    Definitions that the lemmas are stated with: the loops as sweeps, the
    squared distance, the trace of the recursion, the partition of masks, the
    valid arguments of [filter] and what a caller observes. *)

(** The forward sweep of a first-order recurrence, in place:
    [for (x = 1; x < n; ++x) d[x] = F(x, d[x-1], d[x])]. *)
Definition scan_forward {A} `{Inhabited A} (F : nat → A → A → A) (n : nat) (d : list A) : list A :=
  fold_left (λ d x, <[x := F x (d !!! (x - 1)%nat) (d !!! x)]> d) (seq 1 (n - 1)) d.

(** The backward sweep: [for (x = n - 2; x >= 0; --x) d[x] = F(x, d[x+1], d[x])]. *)
Definition scan_backward {A} `{Inhabited A} (F : nat → A → A → A) (n : nat) (d : list A) : list A :=
  fold_left (λ d x, <[x := F x (d !!! (x + 1)%nat) (d !!! x)]> d) (rev (seq 0 (n - 1))) d.

(** The matrix after the forward sweep of every row, named for the
    statement of the recurrences. *)
Definition h_rows_forward (a : R) (src dst : Mat R) : Mat R :=
  map (λ y, h_row_forward a (src !!! y) (cols src)
              (<[0%nat := (src !!! y) !!! 0%nat]> (dst !!! y)))
      (seq 0 (rows src)).



(** The loop over the rows of [compute_w_k], with the row body projected. *)
Definition compute_w_k_loop (st : AMF) (etak : list (Mat R)) (sigma : R) (lvl : Z)
    (dst : Mat R) : Mat R * Mat R :=
  fold_left
    (λ '(d, m) i,
       (<[i := (compute_w_k_row st etak (- (1 / 2) / (sigma * sigma)) lvl i
                  (d !!! i) (m !!! i)).1]> d,
        if adjust_outliers_ st
        then <[i := (compute_w_k_row st etak (- (1 / 2) / (sigma * sigma)) lvl i
                       (d !!! i) (m !!! i)).2]> m
        else m))
    (seq 0 (height (srcSize st)))
    (Mat_create (height (srcSize st)) (width (srcSize st)) dst,
     minDistToManifoldSquared st).

(** The members that the recursion reads and never writes. *)
Definition constants (st : AMF) :=
  (adjust_outliers_ st, sigma_s_ st, sigma_r_ st, tree_height_ st,
   num_pca_iterations_ st, useRNG st, srcSize st, smallSize st,
   jointCnNum st, srcCnNum st, jointCn st, srcCn st,
   curTreeHeight st, sigma_r_over_sqrt_2 st).

(** One node of the recursion up to the test [treeLevel < curTreeHeight]. *)
Definition node `{OpenCV} (st : AMF) (eta : list (Mat R)) (cluster : Mat Z) (treeLevel : Z) : AMF :=
  let st := set_visited (visited st ++ [(treeLevel, cluster)]) st in
  let '(st, eta) := splatting st eta treeLevel in
  let st := blurring st eta in
  slicing st.

(** A mask of [h] rows and [w] columns of bytes. *)
Definition mask_ok (h w : nat) (m : Mat Z) : Prop :=
  has_size h w m ∧
  ∀ y x, (y < h)%nat → (x < w)%nat → (0 ≤ at2 m y x < 256)%Z.

(** At every pixel the parent's byte goes to exactly one child and the other
    child is zero there. *)
Definition splits (h w : nat) (cluster minus plus : Mat Z) : Prop :=
  ∀ y x, (y < h)%nat → (x < w)%nat →
    (at2 minus y x = at2 cluster y x ∧ at2 plus y x = 0%Z) ∨
    (at2 minus y x = 0%Z ∧ at2 plus y x = at2 cluster y x).

(** The projection field [difOreientation] that [computeClusters] compares
    with zero. *)
Definition projection `{OpenCV} (st : AMF) (cluster : Mat Z) : Mat R :=
  difOrientation (initVec st).2
    (computeEigenVector (difEtaSrc st) cluster
       (num_pca_iterations_ (initVec st).2) (initVec st).1).

(** The masks of the calls at tree level [L], in the order of the calls. *)
Definition level_masks (L : Z) (t : list (Z * Mat Z)) : list (Mat Z) :=
  (base.filter (λ e, e.1 = L) t).*2.

(** The calls made below one node: the node itself, then the calls of the
    minus child, then those of the plus child. *)
Inductive trace_of (h w : nat) (H : Z) : Mat Z → Z → list (Z * Mat Z) → Prop :=
| trace_leaf cluster lvl :
    ¬ (lvl < H)%Z → trace_of h w H cluster lvl [(lvl, cluster)]
| trace_split cluster lvl minus plus tm tp :
    (lvl < H)%Z → splits h w cluster minus plus →
    trace_of h w H minus (lvl + 1) tm → trace_of h w H plus (lvl + 1) tp →
    trace_of h w H cluster lvl ((lvl, cluster) :: tm ++ tp).

(** At a pixel, one mask of the list carries the byte of [cluster] and every
    other mask is zero. *)
Definition exactly_one (ms : list (Mat Z)) (cluster : Mat Z) (y x : nat) : Prop :=
  ∃ i m, ms !! i = Some m ∧ at2 m y x = at2 cluster y x ∧
         ∀ j m', ms !! j = Some m' → j ≠ i → at2 m' y x = 0%Z.

(** The configuration: the members that [set] assigns. *)
Definition config (st : AMF) :=
  (adjust_outliers_ st, sigma_s_ st, sigma_r_ st, tree_height_ st,
   num_pca_iterations_ st, useRNG st).

(** A source with at least one pixel whose first plane is rectangular. *)
Definition src_ok (src : Image) : Prop :=
  let p0 := im_planes src !!! 0%nat in
  (0 < rows p0)%nat ∧ (0 < cols p0)%nat ∧ has_size (rows p0) (cols p0) p0.

(** A guide that [initSrcAndJoint] accepts: the source itself, an empty
    array, or an array of the size of the source and of depth 8U, 16U or
    32F. *)
Definition joint_ok (src : Image) (joint : Joint) : Prop :=
  match joint with
  | JointIsSrc => True
  | JointMat j =>
      im_empty j = true ∨
      (has_size (rows (im_planes src !!! 0%nat)) (cols (im_planes src !!! 0%nat))
         (im_planes j !!! 0%nat)
       ∧ (im_depth j = CV_8U ∨ im_depth j = CV_16U ∨ im_depth j = CV_32F))
  end.

(** The tree height that [filter] resolves. *)
Definition resolved_height (st : AMF) : Z :=
  if (tree_height_ st <=? 0)%Z
  then computeManifoldTreeHeight (sigma_s_ st) (sigma_r_ st)
  else tree_height_ st.

(** What a caller observes of a call: the output, or the kind of failure. *)
Inductive Outcome :=
| Returned (dst : Image)
| Raised
| UndefinedBehaviour
| Exhausted.

Definition outcome (r : Res (Image * AMF)) : Outcome :=
  match r with
  | Done (dst, _) => Returned dst
  | Raise _ => Raised
  | Undefined => UndefinedBehaviour
  | OutOfFuel => Exhausted
  end.






(** The object at the entry of the recursion, from the object that
    [initBuffers] left and the guide sample. *)
Definition entry (a : AMF) (seedCoef : R) : AMF :=
  set_visited []
    (set_rnd (seed_state seedCoef)
       (set_sigma_r_over_sqrt_2 (sigma_r_ a / sqrt 2)
          (set_curTreeHeight (resolved_height a) a))).

(** The root manifold [eta0]. *)
Definition root_eta (a : AMF) : list (Mat R) :=
  for_each (jointCnNum a) (λ i e, h_filter (jointCn a !!! i) e (sigma_s_ a))
    (replicate (jointCnNum a) []).

(** ** Sample arguments

    An instance of the library operations that leaves the values alone, and
    small objects and arrays on which the statements are exercised. *)

Definition plain_cv : OpenCV :=
  {| cv_resize := λ m r c, Mat_create r c m;
     dt_filter_rf := λ _ _ _ _ _ m, m;
     rng_fill := λ s n, (replicate n 0, s);
     saturate_cast := λ _ v, v |}.

(** An object for one guide channel on a 1×1 image. *)
Definition amf_1x1 : AMF :=
  set_jointCnNum 1 (set_srcSize (mkSize 1 1) AMF_new).

(** An object holding the accumulators of one channel on a 1×1 image. *)
Definition amf_sums : AMF :=
  set_sum_w_ki_Psi_blur_0_ [[3]]
    (set_sum_w_ki_Psi_blur_ [[[6]]] (set_srcCnNum 1 (set_srcSize (mkSize 1 1) AMF_new))).

(** A 1×1 image of depth 32F with one channel. *)
Definition image_1x1 : Image := mkImage CV_32F [[[1]]].

(** The default-constructed, empty array. *)
Definition image_empty : Image := mkImage CV_8U [[]].

(** * Proofs *)

(** * Loops over index ranges *)

Section Loops.
Context {A : Type} `{Inhabited A}.

Lemma for_each_length w (g : nat → A → A) (l : list A) :
  length (for_each w g l) = length l.
Proof.
  unfold for_each. generalize 0%nat. revert l.
  induction w as [|w IH]; intros l s; simpl; [done|].
  rewrite IH, length_insert. done.
Qed.

Lemma fold_insert_lookup (g : nat → A → A) n : ∀ s (l : list A) j,
  fold_left (λ d i, <[i := g i (d !!! i)]> d) (seq s n) l !!! j =
  if decide ((s ≤ j < s + n)%nat ∧ (j < length l)%nat) then g j (l !!! j) else l !!! j.
Proof.
  induction n as [|n IH]; intros s l j; simpl.
  - case_decide; [lia|done].
  - rewrite IH, length_insert.
    destruct (decide (j = s)) as [->|Hne].
    + repeat case_decide; try lia.
      * rewrite list_lookup_total_insert_eq by lia. done.
      * rewrite list_insert_ge by lia. done.
    + rewrite list_lookup_total_insert_ne by done.
      repeat case_decide; try lia; done.
Qed.

Lemma for_each_lookup w (g : nat → A → A) (l : list A) j :
  (j < w)%nat → (j < length l)%nat → for_each w g l !!! j = g j (l !!! j).
Proof.
  intros Hw Hl. unfold for_each. rewrite fold_insert_lookup.
  case_decide; [done|lia].
Qed.

Lemma for_each_lookup_ge w (g : nat → A → A) (l : list A) j :
  (w ≤ j)%nat → for_each w g l !!! j = l !!! j.
Proof.
  intros Hw. unfold for_each. rewrite fold_insert_lookup.
  case_decide; [lia|done].
Qed.

(** A loop that assigns every slot of a buffer leaves nothing of the old
    contents. *)
Lemma for_each_overwrite w (f : nat → A) (l : list A) :
  length l = w → for_each w (λ i _, f i) l = map f (seq 0 w).
Proof.
  intros Hl. apply list_eq_same_length with w.
  - rewrite length_map, length_seq. done.
  - rewrite for_each_length. done.
  - intros i x y Hi Hx Hy.
    apply list_lookup_total_correct in Hx.
    rewrite for_each_lookup in Hx by lia.
    change (map f (seq 0 w)) with (f <$> seq 0 w) in Hy.
    rewrite list_lookup_fmap, lookup_seq_lt in Hy by done.
    simpl in Hy. congruence.
Qed.

Lemma scan_forward_prefix (F : nat → A → A → A) (d : list A) k :
  (k < length d)%nat →
  let r := fold_left (λ d x, <[x := F x (d !!! (x - 1)%nat) (d !!! x)]> d) (seq 1 k) d in
  length r = length d ∧
  (∀ i, (1 ≤ i ≤ k)%nat → r !!! i = F i (r !!! (i - 1)%nat) (d !!! i)) ∧
  (∀ i, (i = 0 ∨ k < i)%nat → r !!! i = d !!! i).
Proof.
  induction k as [|k IH]; intros Hk; cbv zeta.
  - simpl. split; [done|]. split; [intros; lia|done].
  - rewrite seq_S, fold_left_app. cbv zeta in IH. simpl.
    destruct IH as (Hlen & Hrec & Hrest); [lia|].
    set (r := fold_left _ (seq 1 k) d) in *.
    split; [by rewrite length_insert|].
    split.
    + intros i Hi. destruct (decide (i = S k)) as [->|Hne].
      * rewrite list_lookup_total_insert_eq by lia.
        rewrite list_lookup_total_insert_ne by lia.
        rewrite (Hrest (S k)) by lia.
        replace (S k - 1)%nat with (k - 0)%nat by lia. reflexivity.
      * rewrite !list_lookup_total_insert_ne by lia. apply Hrec. lia.
    + intros i Hi. rewrite list_lookup_total_insert_ne by lia. apply Hrest. lia.
Qed.

Lemma scan_forward_spec (F : nat → A → A → A) n (d : list A) :
  length d = n →
  length (scan_forward F n d) = n ∧
  scan_forward F n d !!! 0%nat = d !!! 0%nat ∧
  (∀ i, (1 ≤ i < n)%nat →
     scan_forward F n d !!! i = F i (scan_forward F n d !!! (i - 1)%nat) (d !!! i)).
Proof.
  intros Hn. unfold scan_forward.
  destruct n as [|n].
  - simpl. split; [done|]. split; [done|]. intros; lia.
  - destruct (scan_forward_prefix F d (S n - 1)) as (Hlen & Hrec & Hrest); [lia|].
    split; [lia|]. split; [apply Hrest; lia|].
    intros i Hi. apply Hrec. lia.
Qed.

Lemma scan_backward_suffix (F : nat → A → A → A) k : ∀ d : list A,
  (k < length d)%nat →
  let r := fold_left (λ d x, <[x := F x (d !!! (x + 1)%nat) (d !!! x)]> d) (rev (seq 0 k)) d in
  length r = length d ∧
  (∀ i, (i < k)%nat → r !!! i = F i (r !!! (i + 1)%nat) (d !!! i)) ∧
  (∀ i, (k ≤ i)%nat → r !!! i = d !!! i).
Proof.
  induction k as [|k IH]; intros d Hk; cbv zeta.
  - simpl. split; [done|]. split; [intros; lia|done].
  - rewrite seq_S, rev_app_distr. cbv zeta in IH. simpl.
    set (d' := <[k := F k (d !!! (k + 1)%nat) (d !!! k)]> d).
    destruct (IH d') as (Hlen & Hrec & Hrest); [unfold d'; rewrite length_insert; lia|].
    set (r := fold_left _ (rev (seq 0 k)) d') in *.
    split; [unfold d' in Hlen; by rewrite length_insert in Hlen|].
    split.
    + intros i Hi. destruct (decide (i = k)) as [->|Hne].
      * rewrite (Hrest k) by lia. rewrite (Hrest (k + 1)%nat) by lia.
        unfold d'. rewrite list_lookup_total_insert_eq by lia.
        rewrite list_lookup_total_insert_ne by lia. done.
      * rewrite Hrec by lia. unfold d'.
        rewrite list_lookup_total_insert_ne by lia. done.
    + intros i Hi. rewrite Hrest by lia. unfold d'.
      rewrite list_lookup_total_insert_ne by lia. done.
Qed.

Lemma scan_backward_spec (F : nat → A → A → A) n (d : list A) :
  length d = n →
  length (scan_backward F n d) = n ∧
  scan_backward F n d !!! (n - 1)%nat = d !!! (n - 1)%nat ∧
  (∀ i, (i + 1 < n)%nat →
     scan_backward F n d !!! i = F i (scan_backward F n d !!! (i + 1)%nat) (d !!! i)).
Proof.
  intros Hn. unfold scan_backward.
  destruct n as [|n].
  - simpl. split; [done|]. split; [done|]. intros; lia.
  - destruct (scan_backward_suffix F (S n - 1) d) as (Hlen & Hrec & Hrest); [lia|].
    split; [lia|]. split; [apply Hrest; lia|].
    intros i Hi. apply Hrec. lia.
Qed.

End Loops.

(** * Sizes *)

Lemma has_size_lookup {A} `{Inhabited A} h w (m : Mat A) :
  has_size h w m ↔ length m = h ∧ ∀ y, (y < h)%nat → length (m !!! y) = w.
Proof.
  unfold has_size. split; intros [Hl Hr]; (split; [done|]).
  - intros y Hy. rewrite Forall_lookup in Hr.
    apply (Hr y). apply list_lookup_lookup_total_lt. lia.
  - apply Forall_lookup. intros y r Hy.
    pose proof (lookup_lt_Some _ _ _ Hy) as Hlt.
    apply list_lookup_total_correct in Hy. subst r. apply Hr. lia.
Qed.

Lemma Mat_create_size {A} `{Inhabited A} h w (old : Mat A) :
  has_size h w (Mat_create h w old).
Proof.
  unfold Mat_create, has_size. split; [apply length_resize|].
  rewrite resize_spec. apply Forall_app. split.
  - apply Forall_take, Forall_forall. intros r Hr.
    apply list_elem_of_fmap in Hr as (r' & -> & _). apply length_resize.
  - apply Forall_replicate. apply length_replicate.
Qed.

Lemma Mat_create_id {A} `{Inhabited A} h w (m : Mat A) :
  has_size h w m → Mat_create h w m = m.
Proof.
  intros [Hl Hr]. unfold Mat_create.
  assert (map (resize w inhabitant) m = m) as ->.
  { clear Hl. induction Hr as [|r m Hr _ IH]; simpl; [done|].
    rewrite IH. f_equal. rewrite <- Hr. apply resize_all. }
  rewrite <- Hl. apply resize_all.
Qed.

Lemma Mat_fill_size {A} h w (v : A) : has_size h w (Mat_fill h w v).
Proof.
  unfold Mat_fill, has_size. split; [apply length_replicate|].
  apply Forall_replicate, length_replicate.
Qed.

Lemma has_size_cols {A} h w (m : Mat A) : has_size h w m → (0 < h)%nat → cols m = w.
Proof.
  intros [Hl Hr] Hh. destruct m as [|r m]; simpl in *; [lia|].
  by inversion Hr.
Qed.

Lemma has_size_at {A} `{Inhabited A} h w (m : Mat A) y :
  has_size h w m → (y < h)%nat → (y < length m)%nat ∧ length (m !!! y) = w.
Proof.
  intros Hs Hy. apply has_size_lookup in Hs as [Hl Hr].
  split; [lia|by apply Hr].
Qed.

(** * [h_filter] *)

Section HFilter.
Variable a : R.

(** The row sweeps and the column sweeps as instances of the two sweeps. *)
Lemma h_row_forward_scan src_row w d :
  h_row_forward a src_row w d =
  scan_forward (λ x prev _, src_row !!! x + a * (prev - src_row !!! x)) w d.
Proof. reflexivity. Qed.

Lemma h_row_backward_scan w d :
  h_row_backward a w d = scan_backward (λ _ next cur, cur + a * (next - cur)) w d.
Proof. reflexivity. Qed.

Lemma h_cols_forward_scan h w d :
  h_cols_forward a h w d = scan_forward (λ _ prev cur, rf_vert_row_pass cur prev a w) h d.
Proof. reflexivity. Qed.

Lemma h_cols_backward_scan h w d :
  h_cols_backward a h w d = scan_backward (λ _ next cur, rf_vert_row_pass cur next a w) h d.
Proof. reflexivity. Qed.

Lemma rf_vert_row_pass_lookup cur prev w x :
  (x < w)%nat → (x < length cur)%nat →
  rf_vert_row_pass cur prev a w !!! x = cur !!! x + a * (prev !!! x - cur !!! x).
Proof. intros. unfold rf_vert_row_pass. by rewrite for_each_lookup. Qed.

Lemma rf_vert_row_pass_length cur prev w :
  length (rf_vert_row_pass cur prev a w) = length cur.
Proof. apply for_each_length. Qed.

(** The forward sweep of a row: [f[0] = x[0]] and
    [f[i] = x[i] + a (f[i-1] - x[i])]. *)
Lemma h_row_forward_spec src_row w d :
  length d = w →
  let f := h_row_forward a src_row w (<[0%nat := src_row !!! 0%nat]> d) in
  length f = w ∧
  ((0 < w)%nat → f !!! 0%nat = src_row !!! 0%nat) ∧
  (∀ i, (1 ≤ i < w)%nat → f !!! i = src_row !!! i + a * (f !!! (i - 1)%nat - src_row !!! i)).
Proof.
  intros Hd f. unfold f. rewrite h_row_forward_scan.
  destruct (scan_forward_spec
              (λ x prev (_ : R), src_row !!! x + a * (prev - src_row !!! x)) w
              (<[0%nat := src_row !!! 0%nat]> d)) as (Hl & H0 & Hrec).
  { by rewrite length_insert. }
  split; [done|]. split; [|done].
  intros Hw. rewrite H0. apply list_lookup_total_insert_eq. lia.
Qed.

(** The backward sweep of a row: [y[w-1] = f[w-1]] and
    [y[i] = f[i] + a (y[i+1] - f[i])]. *)
Lemma h_row_backward_spec w f :
  length f = w →
  let y := h_row_backward a w f in
  length y = w ∧
  y !!! (w - 1)%nat = f !!! (w - 1)%nat ∧
  (∀ i, (i + 1 < w)%nat → y !!! i = f !!! i + a * (y !!! (i + 1)%nat - f !!! i)).
Proof.
  intros Hf y. unfold y. rewrite h_row_backward_scan.
  by apply (scan_backward_spec (λ (_ : nat) next cur, cur + a * (next - cur))).
Qed.

Lemma h_row_pass_length src_row w d : length d = w → length (h_row_pass a src_row w d) = w.
Proof.
  intros Hd. unfold h_row_pass.
  destruct (h_row_forward_spec src_row w d Hd) as (Hl & _).
  by destruct (h_row_backward_spec w _ Hl) as (Hl' & _).
Qed.

Lemma h_rows_for_each src dst :
  h_rows a src dst =
  for_each (rows src) (λ y row, h_row_pass a (src !!! y) (cols src) row) dst.
Proof. reflexivity. Qed.

Lemma h_rows_lookup src dst y :
  (y < rows src)%nat → (y < length dst)%nat →
  h_rows a src dst !!! y = h_row_pass a (src !!! y) (cols src) (dst !!! y).
Proof. intros. rewrite h_rows_for_each. by rewrite for_each_lookup. Qed.

Lemma h_rows_size src dst :
  has_size (rows src) (cols src) dst → has_size (rows src) (cols src) (h_rows a src dst).
Proof.
  intros Hs. apply has_size_lookup in Hs as [Hl Hr]. apply has_size_lookup.
  assert (length (h_rows a src dst) = rows src) as Hlen.
  { rewrite h_rows_for_each. by rewrite for_each_length. }
  split; [done|]. intros y Hy.
  rewrite h_rows_lookup by lia. apply h_row_pass_length. by apply Hr.
Qed.

Lemma h_cols_forward_spec h w b :
  has_size h w b →
  let c := h_cols_forward a h w b in
  has_size h w c ∧
  c !!! 0%nat = b !!! 0%nat ∧
  (∀ y x, (1 ≤ y < h)%nat → (x < w)%nat →
     at2 c y x = at2 b y x + a * (at2 c (y - 1) x - at2 b y x)).
Proof.
  intros Hs c. apply has_size_lookup in Hs as [Hl Hr].
  unfold c. rewrite h_cols_forward_scan.
  destruct (scan_forward_spec
              (λ (_ : nat) prev cur, rf_vert_row_pass cur prev a w) h b Hl)
    as (Hlen & H0 & Hrec).
  split; [|split; [done|]].
  - apply has_size_lookup. split; [done|]. intros y Hy.
    destruct (decide (y = 0%nat)) as [->|Hne].
    + rewrite H0. by apply Hr.
    + rewrite Hrec by lia. rewrite rf_vert_row_pass_length. by apply Hr.
  - intros y x Hy Hx. unfold at2. rewrite (Hrec y) by lia.
    rewrite rf_vert_row_pass_lookup; [done|done|]. rewrite Hr; lia.
Qed.

Lemma h_cols_backward_spec h w c :
  has_size h w c →
  let o := h_cols_backward a h w c in
  has_size h w o ∧
  o !!! (h - 1)%nat = c !!! (h - 1)%nat ∧
  (∀ y x, (y + 1 < h)%nat → (x < w)%nat →
     at2 o y x = at2 c y x + a * (at2 o (y + 1) x - at2 c y x)).
Proof.
  intros Hs o. apply has_size_lookup in Hs as [Hl Hr].
  unfold o. rewrite h_cols_backward_scan.
  destruct (scan_backward_spec
              (λ (_ : nat) next cur, rf_vert_row_pass cur next a w) h c Hl)
    as (Hlen & H0 & Hrec).
  split; [|split; [done|]].
  - apply has_size_lookup. split; [done|]. intros y Hy.
    destruct (decide (y + 1 < h)%nat) as [Hlt|Hge].
    + rewrite Hrec by lia. rewrite rf_vert_row_pass_length. by apply Hr.
    + replace y with (h - 1)%nat by lia. rewrite H0. apply Hr. lia.
  - intros y x Hy Hx. unfold at2. rewrite (Hrec y) by lia.
    rewrite rf_vert_row_pass_lookup; [done|done|]. rewrite Hr; lia.
Qed.

End HFilter.

(** A first-order recurrence fed with a constant stays at the constant. *)
Lemma forward_recurrence_const (a c : R) (u v : nat → R) n :
  ((0 < n)%nat → u 0%nat = v 0%nat) →
  (∀ i, (1 ≤ i < n)%nat → u i = v i + a * (u (i - 1)%nat - v i)) →
  (∀ i, (i < n)%nat → v i = c) →
  ∀ i, (i < n)%nat → u i = c.
Proof.
  intros H0 Hrec Hv i. induction i as [|i IH]; intros Hi.
  - rewrite H0 by lia. apply Hv. lia.
  - rewrite Hrec by lia. replace (S i - 1)%nat with i by lia.
    rewrite IH by lia. rewrite Hv by lia. ring.
Qed.

Lemma backward_recurrence_const (a c : R) (u v : nat → R) n :
  u (n - 1)%nat = v (n - 1)%nat →
  (∀ i, (i + 1 < n)%nat → u i = v i + a * (u (i + 1)%nat - v i)) →
  (∀ i, (i < n)%nat → v i = c) →
  ∀ i, (i < n)%nat → u i = c.
Proof.
  intros Hn Hrec Hv.
  assert (∀ k i, (i + k + 1 = n)%nat → u i = c) as Hk.
  { induction k as [|k IH]; intros i Hi.
    - replace i with (n - 1)%nat by lia. rewrite Hn. apply Hv. lia.
    - rewrite Hrec by lia. rewrite (IH (i + 1)%nat) by lia.
      rewrite Hv by lia. ring. }
  intros i Hi. apply (Hk (n - 1 - i)%nat). lia.
Qed.

Lemma h_rows_forward_lookup a src dst y :
  (y < rows src)%nat →
  h_rows_forward a src dst !!! y =
  h_row_forward a (src !!! y) (cols src) (<[0%nat := (src !!! y) !!! 0%nat]> (dst !!! y)).
Proof.
  intros Hy. unfold h_rows_forward.
  rewrite (list_lookup_total_alt (map _ _)).
  change (map ?f ?l) with (f <$> l). rewrite list_lookup_fmap.
  rewrite lookup_seq_lt by done. done.
Qed.

(** The four sweeps of [h_filter], stage by stage: [f] after the forward
    sweep of the rows, [b] after their backward sweep, [c] after the forward
    sweep over the rows of the matrix, and the result. *)
Lemma h_filter_stages (src dst : Mat R) (sigma : R) :
  let a := h_coef sigma in
  let h := rows src in
  let w := cols src in
  let d0 := Mat_create h w dst in
  let f := h_rows_forward a src d0 in
  let b := h_rows a src d0 in
  let c := h_cols_forward a h w b in
  let out := h_filter src dst sigma in
  (∀ y, (y < h)%nat →
     ((0 < w)%nat → at2 f y 0 = at2 src y 0) ∧
     (∀ x, (1 ≤ x < w)%nat →
        at2 f y x = at2 src y x + a * (at2 f y (x - 1) - at2 src y x))) ∧
  (∀ y, (y < h)%nat →
     at2 b y (w - 1) = at2 f y (w - 1) ∧
     (∀ x, (x + 1 < w)%nat →
        at2 b y x = at2 f y x + a * (at2 b y (x + 1) - at2 f y x))) ∧
  (∀ x, (x < w)%nat →
     at2 c 0 x = at2 b 0 x ∧
     (∀ y, (1 ≤ y < h)%nat →
        at2 c y x = at2 b y x + a * (at2 c (y - 1) x - at2 b y x))) ∧
  (∀ x, (x < w)%nat →
     at2 out (h - 1) x = at2 c (h - 1) x ∧
     (∀ y, (y + 1 < h)%nat →
        at2 out y x = at2 c y x + a * (at2 out (y + 1) x - at2 c y x))) ∧
  has_size h w out.
Proof.
  intros a h w d0 f b c out.
  assert (has_size h w d0) as Hd0 by apply Mat_create_size.
  pose proof Hd0 as Hd0'. apply has_size_lookup in Hd0' as [Hl0 Hr0].
  assert (has_size h w b) as Hb by (by apply h_rows_size).
  destruct (h_cols_forward_spec a h w b Hb) as (Hc & Hc0 & Hcrec).
  fold c in Hc, Hc0, Hcrec.
  destruct (h_cols_backward_spec a h w c Hc) as (Ho & Ho0 & Horec).
  change (h_cols_backward a h w c) with out in Ho, Ho0, Horec.
  split; [|split; [|split; [|split]]]; [| | | |done].
  - intros y Hy. unfold at2, f. rewrite h_rows_forward_lookup by done.
    destruct (h_row_forward_spec a (src !!! y) w (d0 !!! y)) as (_ & H0 & Hrec);
      [by apply Hr0|]. done.
  - intros y Hy. unfold at2, f, b. rewrite h_rows_forward_lookup by done.
    rewrite h_rows_lookup by (done || lia). unfold h_row_pass.
    destruct (h_row_forward_spec a (src !!! y) w (d0 !!! y)) as (Hlf & _);
      [by apply Hr0|].
    destruct (h_row_backward_spec a w _ Hlf) as (_ & Hlast & Hrec). done.
  - intros x Hx. split; [unfold at2; by rewrite Hc0|].
    intros y Hy. by apply Hcrec.
  - intros x Hx. split; [unfold at2; by rewrite Ho0|].
    intros y Hy. by apply Horec.
Qed.

(** C4.  For every single-channel plane [src] and every [sigma], [h_filter]
    with [a = exp(−√2 / sigma)] computes, in every row, [f[0] = src[0]] and
    [f[x] = src[x] + a·(f[x−1] − src[x])] for [x = 1..W−1], then
    [b[W−1] = f[W−1]] and [b[x] = f[x] + a·(b[x+1] − f[x])] for [x = W−2..0];
    the column passes apply [cur[x] = cur[x] + a·(prev[x] − cur[x])] forward
    from row 1 to the last row (giving [c]) and backward from the
    second-to-last row to row 0 (giving the result); the result has the shape
    of [src]. *)
Theorem h_filter_recurrences (src dst : Mat R) (sigma : R) :
  let a := exp (- sqrt 2 / sigma) in
  let h := rows src in
  let w := cols src in
  let out := h_filter src dst sigma in
  ∃ f b c : Mat R,
    (∀ y, (y < h)%nat →
       ((0 < w)%nat → at2 f y 0 = at2 src y 0) ∧
       (∀ x, (1 ≤ x < w)%nat →
          at2 f y x = at2 src y x + a * (at2 f y (x - 1) - at2 src y x))) ∧
    (∀ y, (y < h)%nat →
       at2 b y (w - 1) = at2 f y (w - 1) ∧
       (∀ x, (x + 1 < w)%nat →
          at2 b y x = at2 f y x + a * (at2 b y (x + 1) - at2 f y x))) ∧
    (∀ x, (x < w)%nat →
       at2 c 0 x = at2 b 0 x ∧
       (∀ y, (1 ≤ y < h)%nat →
          at2 c y x = at2 b y x + a * (at2 c (y - 1) x - at2 b y x))) ∧
    (∀ x, (x < w)%nat →
       at2 out (h - 1) x = at2 c (h - 1) x ∧
       (∀ y, (y + 1 < h)%nat →
          at2 out y x = at2 c y x + a * (at2 out (y + 1) x - at2 c y x))) ∧
    rows out = rows src ∧ Forall (λ r, length r = cols src) out.
Proof.
  intros a h w out.
  exists (h_rows_forward a src (Mat_create h w dst)),
         (h_rows a src (Mat_create h w dst)),
         (h_cols_forward a h w (h_rows a src (Mat_create h w dst))).
  exact (h_filter_stages src dst sigma).
Qed.

(** C10.  On a plane whose every entry equals [c], [h_filter] returns a plane
    whose every entry equals [c], whatever [sigma] is. *)
Theorem h_filter_constant (src dst : Mat R) (sigma c : R) :
  (∀ y x, (y < rows src)%nat → (x < cols src)%nat → at2 src y x = c) →
  ∀ y x, (y < rows src)%nat → (x < cols src)%nat →
    at2 (h_filter src dst sigma) y x = c.
Proof.
  intros Hsrc.
  destruct (h_filter_stages src dst sigma) as (Hf & Hb & Hc & Ho & _).
  set (a := h_coef sigma) in *. set (h := rows src) in *. set (w := cols src) in *.
  set (f := h_rows_forward a src _) in *. set (b := h_rows a src _) in *.
  set (c' := h_cols_forward a h w b) in *.
  assert (∀ y x, (y < h)%nat → (x < w)%nat → at2 f y x = c) as Hfc.
  { intros y x Hy. destruct (Hf y Hy) as [H0 Hrec].
    apply (forward_recurrence_const a c (at2 f y) (at2 src y) w); auto. }
  assert (∀ y x, (y < h)%nat → (x < w)%nat → at2 b y x = c) as Hbc.
  { intros y x Hy. destruct (Hb y Hy) as [H0 Hrec].
    apply (backward_recurrence_const a c (at2 b y) (at2 f y) w); auto. }
  assert (∀ y x, (y < h)%nat → (x < w)%nat → at2 c' y x = c) as Hcc.
  { intros y x Hy Hx. destruct (Hc x Hx) as [H0 Hrec]. revert y Hy.
    apply (forward_recurrence_const a c (λ y, at2 c' y x) (λ y, at2 b y x) h); auto. }
  intros y x Hy Hx. destruct (Ho x Hx) as [H0 Hrec]. revert y Hy.
  apply (backward_recurrence_const a c
           (λ y, at2 (h_filter src dst sigma) y x) (λ y, at2 c' y x) h); auto.
Qed.

(** * [h_filter] on one matrix as source and destination *)

Lemma h_row_inplace_eq a w (row : list R) :
  length row = w →
  h_row_backward a w
    (fold_left (λ r x, <[x := r !!! x + a * (r !!! (x - 1)%nat - r !!! x)]> r)
       (seq 1 (w - 1)) (<[0%nat := row !!! 0%nat]> row))
  = h_row_pass a row w row.
Proof.
  intros Hl. unfold h_row_pass. f_equal.
  rewrite h_row_forward_scan.
  change (fold_left _ (seq 1 (w - 1)) ?d)
    with (scan_forward (λ (_ : nat) prev cur, cur + a * (prev - cur)) w d).
  assert (length (<[0%nat := row !!! 0%nat]> row) = w) as Hl0 by (by rewrite length_insert).
  destruct (scan_forward_spec (λ (_ : nat) prev cur, cur + a * (prev - cur)) w _ Hl0)
    as (Hl1 & H10 & H1r).
  destruct (scan_forward_spec (λ x prev (_ : R), row !!! x + a * (prev - row !!! x)) w _ Hl0)
    as (Hl2 & H20 & H2r).
  apply list_eq_same_length with w; [done|done|].
  intros i u v Hi Hu Hv.
  apply list_lookup_total_correct in Hu, Hv. subst u v.
  induction i as [|i IH].
  - by rewrite H10, H20.
  - rewrite H1r, H2r by lia. replace (S i - 1)%nat with i by lia.
    rewrite IH by lia. rewrite list_lookup_total_insert_ne by lia. done.
Qed.

(** With one rectangular matrix as source and destination, [h_filter]
    returns what it returns with a destination of its own. *)
Lemma h_filter_inplace_eq (m : Mat R) (sigma : R) :
  has_size (rows m) (cols m) m →
  h_filter_inplace m sigma = h_filter m m sigma.
Proof.
  intros Hs. unfold h_filter_inplace, h_filter. cbv zeta.
  rewrite (Mat_create_id _ _ m Hs). do 2 f_equal.
  rewrite h_rows_for_each.
  change (h_rows_inplace (h_coef sigma) m)
    with (for_each (rows m)
            (λ (_ : nat) row,
               h_row_backward (h_coef sigma) (cols m)
                 (fold_left
                    (λ r x, <[x := r !!! x + h_coef sigma * (r !!! (x - 1)%nat - r !!! x)]> r)
                    (seq 1 (cols m - 1)) (<[0%nat := row !!! 0%nat]> row))) m).
  apply has_size_lookup in Hs as [Hl Hr].
  apply list_eq_same_length with (rows m); [by rewrite for_each_length..|].
  intros y u v Hy Hu Hv.
  apply list_lookup_total_correct in Hu, Hv. subst u v.
  rewrite !for_each_lookup by (done || by unfold rows).
  apply h_row_inplace_eq. by apply Hr.
Qed.



(** * Element-wise operations *)

Lemma mat_map_lookup {A B} `{Inhabited A, Inhabited B} (f : A → B) (m : Mat A) y x :
  (y < length m)%nat → (x < length (m !!! y))%nat →
  at2 (mat_map f m) y x = f (at2 m y x).
Proof.
  intros Hy Hx. unfold at2, mat_map.
  change (map (map f) m) with (map f <$> m).
  rewrite (list_lookup_total_fmap (map f) m y) by done.
  change (map f (m !!! y)) with (f <$> m !!! y).
  by rewrite (list_lookup_total_fmap f (m !!! y) x).
Qed.

Lemma mat_map_size {A B} (f : A → B) h w (m : Mat A) :
  has_size h w m → has_size h w (mat_map f m).
Proof.
  intros [Hl Hr]. unfold mat_map. split; [by rewrite length_map|].
  apply Forall_fmap. eapply Forall_impl; [exact Hr|].
  intros r Hlen. simpl. by rewrite length_map.
Qed.

Lemma mat_zip_lookup {A B C} `{Inhabited A, Inhabited B, Inhabited C}
    (f : A → B → C) (a : Mat A) (b : Mat B) y x :
  (y < length a)%nat → (y < length b)%nat →
  (x < length (a !!! y))%nat → (x < length (b !!! y))%nat →
  at2 (mat_zip f a b) y x = f (at2 a y x) (at2 b y x).
Proof.
  intros Hya Hyb Hxa Hxb. unfold at2, mat_zip.
  rewrite (lookup_total_zip_with (zip_with f) a b y) by done.
  by rewrite (lookup_total_zip_with f (a !!! y) (b !!! y) x).
Qed.

Lemma mat_zip_size {A B C} (f : A → B → C) h w (a : Mat A) (b : Mat B) :
  has_size h w a → has_size h w b → has_size h w (mat_zip f a b).
Proof.
  intros [Hla Hra] [Hlb Hrb]. unfold mat_zip. split.
  - rewrite length_zip_with. lia.
  - apply Forall_lookup. intros i r Hi.
    apply lookup_zip_with_Some in Hi as (ra & rb & -> & Ha & Hb).
    pose proof (proj1 (Forall_lookup _ _) Hra _ _ Ha) as Ha'.
    pose proof (proj1 (Forall_lookup _ _) Hrb _ _ Hb) as Hb'.
    simpl in *. rewrite length_zip_with. lia.
Qed.

(** * The loop over the channels *)




(** * The loop over the rows of [compute_w_k] *)

Section RowsLoop.
Variables (F G : nat → list R → list R → list R).



End RowsLoop.

Lemma fold_left_pointwise {A B} (f g : A → B → A) (l : list B) (a : A) :
  (∀ a b, f a b = g a b) → fold_left f l a = fold_left g l a.
Proof.
  intros Hfg. revert a. induction l as [|b l IH]; intros a; simpl; [done|].
  by rewrite Hfg, IH.
Qed.

(** * [compute_w_k] *)

Section ComputeWk.
Variables (st : AMF) (etak : list (Mat R)) (sigma : R) (lvl : Z).

Local Abbreviation h := (height (srcSize st)).
Local Abbreviation w := (width (srcSize st)).
Local Abbreviation argConst := (- (1 / 2) / (sigma * sigma)).
Local Abbreviation loop := (compute_w_k_loop st etak sigma lvl).




Lemma compute_w_k_unfold dst :
  compute_w_k st etak dst sigma lvl =
  (mat_map exp (loop dst).1, set_minDistToManifoldSquared (loop dst).2 st).
Proof.
  unfold compute_w_k, compute_w_k_loop. cbv zeta.
  rewrite (fold_left_pointwise _
    (λ '(d, m) i,
       (<[i := (compute_w_k_row st etak argConst lvl i (d !!! i) (m !!! i)).1]> d,
        if adjust_outliers_ st
        then <[i := (compute_w_k_row st etak argConst lvl i (d !!! i) (m !!! i)).2]> m
        else m)));
    [|intros [d m] i; reflexivity].
  by destruct (fold_left _ _ _).
Qed.


Lemma compute_w_k_snd dst :
  (compute_w_k st etak dst sigma lvl).2 = set_minDistToManifoldSquared (loop dst).2 st.
Proof. by rewrite compute_w_k_unfold. Qed.








End ComputeWk.


Lemma cv_div_nonzero x y : y ≠ 0 → cv_div x y = x / y.
Proof. intros Hy. unfold cv_div. by destruct (Req_dec_T y 0). Qed.

Lemma cv_div_zero x : cv_div x 0 = 0.
Proof. unfold cv_div. by destruct (Req_dec_T 0 0). Qed.

Section Gather.
Context `{OpenCV}.

Lemma gatherResult_depth st src : im_depth (gatherResult st src).1 = im_depth src.
Proof. unfold gatherResult. by destruct (adjust_outliers_ st). Qed.

Lemma gatherResult_baseline st src c :
  adjust_outliers_ st = false → (c < srcCnNum st)%nat →
  im_planes (gatherResult st src).1 !!! c
  = mat_zip (λ a b, saturate_cast (im_depth src) (cv_div a b))
      (sum_w_ki_Psi_blur_ st !!! c) (sum_w_ki_Psi_blur_0_ st).
Proof.
  intros Ha Hc. unfold gatherResult. rewrite Ha. simpl.
  rewrite for_each_lookup; [done|done|by rewrite length_replicate].
Qed.

Lemma gatherResult_outliers st src c :
  adjust_outliers_ st = true → (c < srcCnNum st)%nat →
  im_planes (gatherResult st src).1 !!! c
  = let alpha :=
      mat_map exp
        (mat_map (λ v, v * (- (1 / 2) / (sigma_r_ st * sigma_r_ st)))
           (minDistToManifoldSquared st)) in
    let f := srcCn st !!! c in
    let g := mat_zip cv_div (sum_w_ki_Psi_blur_ st !!! c) (sum_w_ki_Psi_blur_0_ st) in
    mat_map (saturate_cast (im_depth src))
      (mat_zip Rplus (mat_zip Rmult alpha (mat_zip Rminus g f)) f).
Proof.
  intros Ha Hc. unfold gatherResult. rewrite Ha. simpl.
  rewrite for_each_lookup; [done|done|by rewrite length_replicate].
Qed.

End Gather.

(** C2.  Without [adjust_outliers], [gatherResult] produces for every channel
    [c] of [src] and every pixel [dst_c = sum_wk_psi[c] / sum_wk] cast to the
    depth of [src]; with [adjust_outliers] it produces
    [dst_c = alpha · (g − src_c) + src_c] cast to that depth, where
    [g = sum_wk_psi[c] / sum_wk] and [alpha = exp(−0.5 · min_dist2 / sigma_r²)].
    The quotient is the one of [cv::divide], which is the real quotient
    wherever [sum_wk] is not zero. *)
Theorem gatherResult_spec `{OpenCV} (st : AMF) (src : Image) (c y x : nat) :
  let h := height (srcSize st) in
  let w := width (srcSize st) in
  let psi := at2 (sum_w_ki_Psi_blur_ st !!! c) y x in
  let wk := at2 (sum_w_ki_Psi_blur_0_ st) y x in
  let dst := (gatherResult st src).1 in
  (c < srcCnNum st)%nat → (y < h)%nat → (x < w)%nat →
  has_size h w (sum_w_ki_Psi_blur_ st !!! c) →
  has_size h w (sum_w_ki_Psi_blur_0_ st) →
  im_depth dst = im_depth src ∧
  (wk ≠ 0 → cv_div psi wk = psi / wk) ∧
  (adjust_outliers_ st = false →
   at2 (im_planes dst !!! c) y x = saturate_cast (im_depth src) (cv_div psi wk)) ∧
  (adjust_outliers_ st = true →
   sigma_r_ st ≠ 0 →
   has_size h w (minDistToManifoldSquared st) →
   has_size h w (srcCn st !!! c) →
   let alpha := exp (- (1 / 2) * at2 (minDistToManifoldSquared st) y x / (sigma_r_ st) ^ 2) in
   let g := cv_div psi wk in
   let src_c := at2 (srcCn st !!! c) y x in
   at2 (im_planes dst !!! c) y x
   = saturate_cast (im_depth src) (alpha * (g - src_c) + src_c)).
Proof.
  intros h w psi wk dst Hc Hy Hx Hpsi Hwk.
  destruct (has_size_at _ _ _ y Hpsi Hy) as [Hy1 Hx1].
  destruct (has_size_at _ _ _ y Hwk Hy) as [Hy2 Hx2].
  split; [apply gatherResult_depth|].
  split; [apply cv_div_nonzero|]. split.
  - intros Ha. unfold dst. rewrite gatherResult_baseline by done.
    rewrite mat_zip_lookup by lia. done.
  - intros Ha Hsr Hmd Hsrc alpha g src_c.
    unfold dst. rewrite gatherResult_outliers by done. cbv zeta.
    pose proof (mat_zip_size cv_div h w _ _ Hpsi Hwk) as Hg.
    pose proof (mat_zip_size Rminus h w _ _ Hg Hsrc) as Hgf.
    pose proof (mat_map_size (λ v, v * (- (1 / 2) / (sigma_r_ st * sigma_r_ st))) h w _ Hmd) as Hm1.
    pose proof (mat_map_size exp h w _ Hm1) as Halpha.
    pose proof (mat_zip_size Rmult h w _ _ Halpha Hgf) as Hag.
    pose proof (mat_zip_size Rplus h w _ _ Hag Hsrc) as Hsum.
    destruct (has_size_at _ _ _ y Hmd Hy) as [? ?].
    destruct (has_size_at _ _ _ y Hsrc Hy) as [? ?].
    destruct (has_size_at _ _ _ y Hg Hy) as [? ?].
    destruct (has_size_at _ _ _ y Hgf Hy) as [? ?].
    destruct (has_size_at _ _ _ y Hm1 Hy) as [? ?].
    destruct (has_size_at _ _ _ y Halpha Hy) as [? ?].
    destruct (has_size_at _ _ _ y Hag Hy) as [? ?].
    destruct (has_size_at _ _ _ y Hsum Hy) as [? ?].
    rewrite mat_map_lookup by lia.
    rewrite (mat_zip_lookup Rplus) by lia.
    rewrite (mat_zip_lookup Rmult) by lia.
    rewrite (mat_zip_lookup Rminus) by lia.
    rewrite (mat_zip_lookup cv_div) by lia.
    rewrite (mat_map_lookup exp) by lia.
    rewrite mat_map_lookup by lia.
    unfold alpha, g, src_c, psi, wk.
    replace (at2 (minDistToManifoldSquared st) y x
             * (- (1 / 2) / (sigma_r_ st * sigma_r_ st)))
      with (- (1 / 2) * at2 (minDistToManifoldSquared st) y x / sigma_r_ st ^ 2)
      by (field; done).
    reflexivity.
Qed.

Section Frames.
Context `{OpenCV}.

Lemma compute_w_k_constants st etak dst sigma lvl :
  constants (compute_w_k st etak dst sigma lvl).2 = constants st.
Proof. by rewrite compute_w_k_snd. Qed.

Lemma compute_w_k_visited st etak dst sigma lvl :
  visited (compute_w_k st etak dst sigma lvl).2 = visited st.
Proof. by rewrite compute_w_k_snd. Qed.

Lemma compute_w_k_rnd st etak dst sigma lvl :
  rnd (compute_w_k st etak dst sigma lvl).2 = rnd st.
Proof. by rewrite compute_w_k_snd. Qed.

Lemma splatting_constants st eta lvl :
  constants (splatting st eta lvl).1 = constants st.
Proof.
  unfold splatting. destruct (Size_eqb _ _).
  - pose proof (compute_w_k_constants st eta (w_k st) (sigma_r_over_sqrt_2 st) lvl) as Hc.
    destruct (compute_w_k st eta (w_k st) (sigma_r_over_sqrt_2 st) lvl) as [w st1].
    simpl in *. exact Hc.
  - set (st0 := set_etaFull _ st).
    pose proof (compute_w_k_constants st0 (etaFull st0) (w_k st0)
                  (sigma_r_over_sqrt_2 st0) lvl) as Hc.
    destruct (compute_w_k st0 (etaFull st0) (w_k st0) (sigma_r_over_sqrt_2 st0) lvl)
      as [w st1].
    simpl in *. exact Hc.
Qed.

Lemma splatting_visited st eta lvl :
  visited (splatting st eta lvl).1 = visited st.
Proof.
  unfold splatting. destruct (Size_eqb _ _).
  - pose proof (compute_w_k_visited st eta (w_k st) (sigma_r_over_sqrt_2 st) lvl) as Hc.
    destruct (compute_w_k st eta (w_k st) (sigma_r_over_sqrt_2 st) lvl) as [w st1].
    simpl in *. exact Hc.
  - set (st0 := set_etaFull _ st).
    pose proof (compute_w_k_visited st0 (etaFull st0) (w_k st0)
                  (sigma_r_over_sqrt_2 st0) lvl) as Hc.
    destruct (compute_w_k st0 (etaFull st0) (w_k st0) (sigma_r_over_sqrt_2 st0) lvl)
      as [w st1].
    simpl in *. exact Hc.
Qed.

Lemma blurring_constants st eta : constants (blurring st eta) = constants st.
Proof. unfold blurring. cbv zeta. by destruct (RFFilterPass _ _ _ _ _). Qed.

Lemma blurring_visited st eta : visited (blurring st eta) = visited st.
Proof. unfold blurring. cbv zeta. by destruct (RFFilterPass _ _ _ _ _). Qed.

Lemma slicing_constants st : constants (slicing st) = constants st.
Proof. reflexivity. Qed.

Lemma slicing_visited st : visited (slicing st) = visited st.
Proof. reflexivity. Qed.

Lemma initVec_constants st : constants (initVec st).2 = constants st.
Proof. unfold initVec. destruct (useRNG st); [|done]. by destruct (rng_fill _ _). Qed.

Lemma initVec_visited st : visited (initVec st).2 = visited st.
Proof. unfold initVec. destruct (useRNG st); [|done]. by destruct (rng_fill _ _). Qed.

Lemma computeClusters_state st cluster :
  (computeClusters st cluster).2 = (initVec st).2.
Proof. unfold computeClusters. cbv zeta. by destruct (initVec st). Qed.

Lemma computeClusters_constants st cluster :
  constants (computeClusters st cluster).2 = constants st.
Proof. rewrite computeClusters_state. apply initVec_constants. Qed.

Lemma computeClusters_visited st cluster :
  visited (computeClusters st cluster).2 = visited st.
Proof. rewrite computeClusters_state. apply initVec_visited. Qed.

Lemma node_constants st eta cluster lvl : constants (node st eta cluster lvl) = constants st.
Proof.
  unfold node. cbv zeta.
  set (st0 := set_visited _ st).
  pose proof (splatting_constants st0 eta lvl) as Hs.
  destruct (splatting st0 eta lvl) as [st1 eta1]. simpl in Hs.
  rewrite slicing_constants, blurring_constants. by rewrite Hs.
Qed.

Lemma node_visited st eta cluster lvl :
  visited (node st eta cluster lvl) = visited st ++ [(lvl, cluster)].
Proof.
  unfold node. cbv zeta.
  set (st0 := set_visited _ st).
  pose proof (splatting_visited st0 eta lvl) as Hs.
  destruct (splatting st0 eta lvl) as [st1 eta1]. simpl in Hs.
  rewrite slicing_visited, blurring_visited. by rewrite Hs.
Qed.

(** The recursion in terms of [node]. *)
Lemma build_unfold fuel st eta cluster lvl :
  buildManifoldsAndPerformFiltering (S fuel) st eta cluster lvl =
  let st1 := node st eta cluster lvl in
  if (lvl <? curTreeHeight st1)%Z then
    let cs := computeClusters st1 cluster in
    let st2 := cs.2 in
    let teta := mat_map (λ w, 1 - w) (w_k st2) in
    let eta_minus := computeEta st2 teta cs.1.1 (replicate (jointCnNum st2) []) in
    let eta_plus := computeEta st2 teta cs.1.2 (replicate (jointCnNum st2) []) in
    match buildManifoldsAndPerformFiltering fuel st2 eta_minus cs.1.1 (lvl + 1) with
    | Some st3 => buildManifoldsAndPerformFiltering fuel st3 eta_plus cs.1.2 (lvl + 1)
    | None => None
    end
  else Some st1.
Proof.
  simpl. unfold node. cbv zeta.
  destruct (splatting _ eta lvl) as [st1 eta1].
  destruct (_ <? _)%Z; [|done].
  by destruct (computeClusters _ cluster) as [[cm cp] st2].
Qed.

Lemma build_constants fuel : ∀ st eta cluster lvl st',
  buildManifoldsAndPerformFiltering fuel st eta cluster lvl = Some st' →
  constants st' = constants st.
Proof.
  induction fuel as [|fuel IH]; intros st eta cluster lvl st' Hb; [done|].
  rewrite build_unfold in Hb. cbv zeta in Hb.
  pose proof (node_constants st eta cluster lvl) as Hn.
  destruct (_ <? _)%Z; [|by inversion Hb; subst].
  pose proof (computeClusters_constants (node st eta cluster lvl) cluster) as Hc.
  destruct (buildManifoldsAndPerformFiltering fuel _ _ _ _) as [st3|] eqn:Hm; [|done].
  apply IH in Hm. apply IH in Hb. congruence.
Qed.

(** The recursion returns whenever the fuel exceeds the number of levels
    below the current one. *)
Lemma build_fuel fuel : ∀ st eta cluster lvl,
  (0 < fuel)%nat → (curTreeHeight st - lvl < Z.of_nat fuel)%Z →
  ∃ st', buildManifoldsAndPerformFiltering fuel st eta cluster lvl = Some st'.
Proof.
  induction fuel as [|fuel IH]; intros st eta cluster lvl Hpos Hf; [lia|].
  rewrite build_unfold. cbv zeta.
  pose proof (node_constants st eta cluster lvl) as Hn.
  assert (curTreeHeight (node st eta cluster lvl) = curTreeHeight st) as Hh
    by (unfold constants in Hn; congruence).
  destruct (_ <? _)%Z eqn:Hlt; [|eauto].
  apply Z.ltb_lt in Hlt. rewrite Hh in Hlt.
  pose proof (computeClusters_constants (node st eta cluster lvl) cluster) as Hc.
  set (st2 := (computeClusters (node st eta cluster lvl) cluster).2) in *.
  assert (curTreeHeight st2 = curTreeHeight st) as Hh2
    by (unfold constants in Hc, Hn; congruence).
  edestruct (IH st2) as [st3 Hm]; [| |rewrite Hm]; [lia|lia|].
  pose proof (build_constants _ _ _ _ _ _ Hm) as Hc3.
  assert (curTreeHeight st3 = curTreeHeight st) as Hh3
    by (unfold constants in Hc3; congruence).
  apply IH; lia.
Qed.

End Frames.

(** * Masks *)

Lemma land_255_byte v : (0 ≤ v < 256)%Z → Z.land 255 v = v.
Proof.
  intros Hv. rewrite Z.land_comm. change 255%Z with (Z.ones 8).
  rewrite Z.land_ones by lia. apply Z.mod_small. lia.
Qed.

Lemma concat_singletons_length {A B} (f : A → B) (l : list A) :
  length (concat (map (λ a, [f a]) l)) = length l.
Proof. induction l as [|a l IH]; simpl; [done|by rewrite IH]. Qed.

Lemma concat_map_length {A B} (f : A → list B) (l : list A) w :
  (∀ a, length (f a) = w) → length (concat (map f l)) = (length l * w)%nat.
Proof.
  intros Hf. induction l as [|a l IH]; simpl; [done|].
  by rewrite length_app, Hf, IH.
Qed.

Lemma merge_pixels_length h w planes : length (merge_pixels h w planes) = (h * w)%nat.
Proof.
  unfold merge_pixels. rewrite (concat_map_length _ _ w).
  - by rewrite length_seq.
  - intros y. by rewrite length_map, length_seq.
Qed.

Lemma mat_reshape_size {A} (m : Mat A) h w :
  length (concat m) = (h * w)%nat → has_size h w (mat_reshape m h).
Proof.
  intros Hl. unfold mat_reshape. split; [by rewrite length_map, length_seq|].
  apply Forall_forall. intros r Hr.
  apply list_elem_of_fmap in Hr as (y & -> & Hy).
  apply elem_of_seq in Hy. rewrite Hl.
  destruct h as [|h]; [lia|].
  rewrite Nat.mul_comm, Nat.div_mul by lia.
  rewrite length_take, length_drop, Hl. nia.
Qed.

Section Clusters.
Context `{OpenCV}.

Lemma computeClusters_unfold st cluster :
  computeClusters st cluster =
  (bitwise_and (compare_LT_0 (projection st cluster)) cluster,
   bitwise_and (compare_GE_0 (projection st cluster)) cluster,
   (initVec st).2).
Proof.
  unfold computeClusters, projection. cbv zeta. by destruct (initVec st).
Qed.

Lemma difEtaSrc_length st :
  length (difEtaSrc st) = (height (srcSize st) * width (srcSize st))%nat.
Proof. unfold difEtaSrc. apply merge_pixels_length. Qed.

Lemma initVec_srcSize st : srcSize (initVec st).2 = srcSize st.
Proof.
  pose proof (initVec_constants st) as Hc. unfold constants in Hc. congruence.
Qed.

Lemma difOrientation_size st v :
  has_size (height (srcSize st)) (width (srcSize st)) (difOrientation st v).
Proof.
  unfold difOrientation. apply mat_reshape_size.
  rewrite concat_singletons_length. apply difEtaSrc_length.
Qed.

Lemma projection_size st cluster :
  has_size (height (srcSize st)) (width (srcSize st)) (projection st cluster).
Proof.
  unfold projection. rewrite <- (initVec_srcSize st). apply difOrientation_size.
Qed.

(** The two child masks, pixel by pixel. *)
Lemma computeClusters_lookup st cluster y x :
  let h := height (srcSize st) in
  let w := width (srcSize st) in
  has_size h w cluster → (y < h)%nat → (x < w)%nat →
  at2 (computeClusters st cluster).1.1 y x
  = Z.land (if Rlt_dec (at2 (projection st cluster) y x) 0 then 255 else 0)
      (at2 cluster y x) ∧
  at2 (computeClusters st cluster).1.2 y x
  = Z.land (if Rge_dec (at2 (projection st cluster) y x) 0 then 255 else 0)
      (at2 cluster y x).
Proof.
  intros h w Hc Hy Hx. rewrite computeClusters_unfold. simpl.
  pose proof (projection_size st cluster) as Ho. fold h w in Ho.
  destruct (has_size_at h w _ y Hc Hy) as [? ?].
  destruct (has_size_at h w _ y Ho Hy) as [? ?].
  pose proof (mat_map_size (λ v, if Rlt_dec v 0 then 255%Z else 0%Z) h w _ Ho) as Hlt.
  pose proof (mat_map_size (λ v, if Rge_dec v 0 then 255%Z else 0%Z) h w _ Ho) as Hge.
  destruct (has_size_at h w _ y Hlt Hy) as [? ?].
  destruct (has_size_at h w _ y Hge Hy) as [? ?].
  unfold bitwise_and, compare_LT_0, compare_GE_0.
  rewrite !mat_zip_lookup by (done || lia).
  rewrite !mat_map_lookup by (done || lia). done.
Qed.

Lemma computeClusters_splits st cluster :
  let h := height (srcSize st) in
  let w := width (srcSize st) in
  mask_ok h w cluster →
  splits h w cluster (computeClusters st cluster).1.1 (computeClusters st cluster).1.2.
Proof.
  intros h w [Hs Hb] y x Hy Hx.
  destruct (computeClusters_lookup st cluster y x Hs Hy Hx) as [-> ->].
  specialize (Hb y x Hy Hx).
  destruct (Rlt_dec _ 0) as [Hlt|Hnlt]; destruct (Rge_dec _ 0) as [Hge|Hnge]; try lra.
  - left. split; [by apply land_255_byte|apply Z.land_0_l].
  - right. split; [apply Z.land_0_l|by apply land_255_byte].
Qed.

Lemma computeClusters_mask_ok st cluster :
  let h := height (srcSize st) in
  let w := width (srcSize st) in
  mask_ok h w cluster →
  mask_ok h w (computeClusters st cluster).1.1 ∧
  mask_ok h w (computeClusters st cluster).1.2.
Proof.
  intros h w Hm. pose proof (computeClusters_splits st cluster Hm) as Hsp.
  destruct Hm as [Hs Hb].
  pose proof (projection_size st cluster) as Ho. fold h w in Ho.
  rewrite computeClusters_unfold. rewrite computeClusters_unfold in Hsp. simpl in *.
  split; (split; [apply mat_zip_size; [by apply mat_map_size|done]|]).
  - intros y x Hy Hx. specialize (Hb y x Hy Hx).
    destruct (Hsp y x Hy Hx) as [[-> _]|[-> _]]; lia.
  - intros y x Hy Hx. specialize (Hb y x Hy Hx).
    destruct (Hsp y x Hy Hx) as [[_ ->]|[_ ->]]; lia.
Qed.

End Clusters.

Lemma level_masks_app L t1 t2 :
  level_masks L (t1 ++ t2) = level_masks L t1 ++ level_masks L t2.
Proof. unfold level_masks. by rewrite filter_app, fmap_app. Qed.

Lemma level_masks_cons_eq L c t : level_masks L ((L, c) :: t) = c :: level_masks L t.
Proof. unfold level_masks. by rewrite filter_cons_True. Qed.

Lemma level_masks_cons_ne L l c t : l ≠ L → level_masks L ((l, c) :: t) = level_masks L t.
Proof. intros Hne. unfold level_masks. by rewrite filter_cons_False. Qed.

Lemma trace_levels h w H cluster lvl t :
  trace_of h w H cluster lvl t → Forall (λ e, (lvl ≤ e.1)%Z) t.
Proof.
  induction 1 as [cluster lvl Hl|cluster lvl minus plus tm tp Hl Hs _ IHm _ IHp].
  - repeat constructor. simpl. lia.
  - constructor; [simpl; lia|]. apply Forall_app. split.
    + eapply Forall_impl; [exact IHm|]. simpl. intros. lia.
    + eapply Forall_impl; [exact IHp|]. simpl. intros. lia.
Qed.

Lemma trace_levels_le h w H cluster lvl t :
  trace_of h w H cluster lvl t → Forall (λ e, (e.1 ≤ Z.max lvl H)%Z) t.
Proof.
  induction 1 as [cluster lvl Hl|cluster lvl minus plus tm tp Hl Hs _ IHm _ IHp].
  - repeat constructor. simpl. lia.
  - constructor; [simpl; lia|]. apply Forall_app. split.
    + eapply Forall_impl; [exact IHm|]. simpl. intros. lia.
    + eapply Forall_impl; [exact IHp|]. simpl. intros. lia.
Qed.

Lemma level_masks_below L lvl t :
  (L < lvl)%Z → Forall (λ e, (lvl ≤ e.1)%Z) t → level_masks L t = [].
Proof.
  intros HL Ht. unfold level_masks.
  induction Ht as [|e t He _ IH]; [done|].
  rewrite filter_cons_False by lia. exact IH.
Qed.

Lemma exactly_one_all_zero ms cluster y x :
  exactly_one ms cluster y x → at2 cluster y x = 0%Z →
  ∀ j m, ms !! j = Some m → at2 m y x = 0%Z.
Proof.
  intros (i & m & Hi & Hm & Ho) Hz j m' Hj.
  destruct (decide (j = i)) as [->|Hne]; [|by eapply Ho].
  rewrite Hi in Hj. injection Hj as <-. congruence.
Qed.

Lemma exactly_one_app_l ms1 ms2 c1 c2 cluster y x :
  exactly_one ms1 c1 y x → exactly_one ms2 c2 y x →
  at2 c1 y x = at2 cluster y x → at2 c2 y x = 0%Z →
  exactly_one (ms1 ++ ms2) cluster y x.
Proof.
  intros (i & m & Hi & Hm & Ho) H2 Hc1 Hc2.
  pose proof (lookup_lt_Some _ _ _ Hi) as Hlt.
  exists i, m. split; [by rewrite lookup_app_l|]. split; [congruence|].
  intros j m' Hj Hne. destruct (decide (j < length ms1)%nat) as [Hj1|Hj1].
  - rewrite lookup_app_l in Hj by done. by eapply Ho.
  - rewrite lookup_app_r in Hj by lia.
    by eapply (exactly_one_all_zero ms2 c2).
Qed.

Lemma exactly_one_app_r ms1 ms2 c1 c2 cluster y x :
  exactly_one ms1 c1 y x → exactly_one ms2 c2 y x →
  at2 c1 y x = 0%Z → at2 c2 y x = at2 cluster y x →
  exactly_one (ms1 ++ ms2) cluster y x.
Proof.
  intros H1 (i & m & Hi & Hm & Ho) Hc1 Hc2.
  exists (length ms1 + i)%nat, m.
  split; [rewrite lookup_app_r by lia; by replace (length ms1 + i - length ms1)%nat with i by lia|].
  split; [congruence|].
  intros j m' Hj Hne. destruct (decide (j < length ms1)%nat) as [Hj1|Hj1].
  - rewrite lookup_app_l in Hj by done.
    by eapply (exactly_one_all_zero ms1 c1).
  - rewrite lookup_app_r in Hj by lia. eapply Ho; [exact Hj|lia].
Qed.

(** The masks of one level below a node share out the mask of the node. *)
Lemma trace_partition h w H cluster lvl t :
  trace_of h w H cluster lvl t →
  ∀ L y x, (lvl ≤ L)%Z → (L ≤ H ∨ L = lvl)%Z → (y < h)%nat → (x < w)%nat →
  exactly_one (level_masks L t) cluster y x.
Proof.
  induction 1 as [cluster lvl Hl|cluster lvl minus plus tm tp Hl Hs Hm IHm Hp IHp];
    intros L y x HL HH Hy Hx.
  - assert (L = lvl) as -> by lia. rewrite level_masks_cons_eq.
    exists 0%nat, cluster. split; [done|]. split; [done|].
    intros [|j] m' Hj Hne; [done|]. done.
  - destruct (decide (L = lvl)) as [->|Hne].
    + rewrite level_masks_cons_eq, level_masks_app.
      rewrite (level_masks_below lvl (lvl + 1) tm) by (lia || by eapply trace_levels).
      rewrite (level_masks_below lvl (lvl + 1) tp) by (lia || by eapply trace_levels).
      exists 0%nat, cluster. split; [done|]. split; [done|].
      intros [|j] m' Hj Hne; [done|]. done.
    + rewrite level_masks_cons_ne by done. rewrite level_masks_app.
      assert (exactly_one (level_masks L tm) minus y x) as H1 by (apply IHm; lia).
      assert (exactly_one (level_masks L tp) plus y x) as H2 by (apply IHp; lia).
      destruct (Hs y x Hy Hx) as [[Hcm Hcp]|[Hcm Hcp]].
      * by eapply exactly_one_app_l.
      * by eapply exactly_one_app_r.
Qed.

Lemma exactly_one_disjoint ms cluster y x i j mi mj :
  exactly_one ms cluster y x → ms !! i = Some mi → ms !! j = Some mj → i ≠ j →
  Z.land (at2 mi y x) (at2 mj y x) = 0%Z.
Proof.
  intros (k & m & Hk & Hm & Ho) Hi Hj Hne.
  destruct (decide (i = k)) as [->|Hik].
  - rewrite (Ho j mj Hj) by done. apply Z.land_0_r.
  - rewrite (Ho i mi Hi) by done. apply Z.land_0_l.
Qed.

Lemma union_zero (ms : list (Mat Z)) y x :
  (∀ j m, ms !! j = Some m → at2 m y x = 0%Z) →
  foldr Z.lor 0%Z ((λ m, at2 m y x) <$> ms) = 0%Z.
Proof.
  induction ms as [|m ms IH]; intros Hz; [done|].
  rewrite fmap_cons. cbn [fold_right].
  rewrite (Hz 0%nat m) by done. rewrite IH; [done|].
  intros j m' Hj. by apply (Hz (S j)).
Qed.

Lemma exactly_one_union ms cluster y x :
  exactly_one ms cluster y x →
  foldr Z.lor 0%Z ((λ m, at2 m y x) <$> ms) = at2 cluster y x.
Proof.
  intros (k & m & Hk & Hm & Ho). revert k Hk Ho.
  induction ms as [|m0 ms IH]; intros k Hk Ho; [done|].
  rewrite fmap_cons. cbn [fold_right].
  destruct k as [|k].
  - injection Hk as ->. rewrite union_zero.
    + rewrite Z.lor_0_r. done.
    + intros j m' Hj. by apply (Ho (S j)).
  - rewrite (Ho 0%nat m0) by done. rewrite Z.lor_0_l.
    apply (IH k); [done|]. intros j m' Hj Hne. apply (Ho (S j)); [done|lia].
Qed.

Section Trace.
Context `{OpenCV}.

Lemma build_trace fuel : ∀ st eta cluster lvl st',
  mask_ok (height (srcSize st)) (width (srcSize st)) cluster →
  buildManifoldsAndPerformFiltering fuel st eta cluster lvl = Some st' →
  ∃ t, visited st' = visited st ++ t ∧
       trace_of (height (srcSize st)) (width (srcSize st)) (curTreeHeight st) cluster lvl t.
Proof.
  induction fuel as [|fuel IH]; intros st eta cluster lvl st' Hm Hb; [done|].
  rewrite build_unfold in Hb. cbv zeta in Hb.
  pose proof (node_constants st eta cluster lvl) as Hn.
  pose proof (node_visited st eta cluster lvl) as Hv.
  set (st1 := node st eta cluster lvl) in *.
  assert (curTreeHeight st1 = curTreeHeight st ∧ srcSize st1 = srcSize st) as [Hh Hsz]
    by (unfold constants in Hn; split; congruence).
  destruct (_ <? _)%Z eqn:Hlt.
  - apply Z.ltb_lt in Hlt. rewrite Hh in Hlt.
    rewrite <- Hsz in Hm.
    pose proof (computeClusters_splits st1 cluster Hm) as Hsp.
    pose proof (computeClusters_mask_ok st1 cluster Hm) as [Hmm Hmp].
    pose proof (computeClusters_constants st1 cluster) as Hc.
    pose proof (computeClusters_visited st1 cluster) as Hcv.
    set (cs := computeClusters st1 cluster) in *.
    assert (curTreeHeight cs.2 = curTreeHeight st ∧ srcSize cs.2 = srcSize st) as [Hh2 Hsz2]
      by (unfold constants in Hc, Hn; split; congruence).
    destruct (buildManifoldsAndPerformFiltering fuel cs.2 _ cs.1.1 _) as [st3|] eqn:Hbm;
      [|done].
    pose proof (build_constants _ _ _ _ _ _ Hbm) as Hc3.
    assert (curTreeHeight st3 = curTreeHeight st ∧ srcSize st3 = srcSize st) as [Hh3 Hsz3]
      by (unfold constants in Hc3; split; congruence).
    apply IH in Hbm as (tm & Hvm & Htm); [|by rewrite Hsz2, <- Hsz].
    apply IH in Hb as (tp & Hvp & Htp); [|by rewrite Hsz3, <- Hsz].
    exists ((lvl, cluster) :: tm ++ tp). split.
    + rewrite Hvp, Hvm, Hcv, Hv. rewrite <- !app_assoc. done.
    + rewrite Hh2, Hsz2 in Htm. rewrite Hh3, Hsz3 in Htp. rewrite Hsz in Hsp.
      by eapply trace_split.
  - apply Z.ltb_ge in Hlt. rewrite Hh in Hlt. inversion Hb; subst st'.
    exists [(lvl, cluster)]. split; [done|]. apply trace_leaf. lia.
Qed.

End Trace.

(** * Calls of [filter] that pass the set-up *)

Lemma has_size_dims {A} h w (m : Mat A) :
  has_size h w m → (0 < h)%nat → rows m = h ∧ cols m = w.
Proof. intros Hs Hh. split; [apply Hs|by eapply has_size_cols]. Qed.

Lemma src_ok_split src :
  src_ok src →
  im_empty src = false ∧ cv_split src = im_planes src ∧
  (0 < length (im_planes src))%nat.
Proof.
  intros (Hr & Hc & Hs). unfold cv_split, im_empty, im_size, mat_size. simpl.
  assert ((cols (im_planes src !!! 0%nat) =? 0)%nat = false) as -> by (apply Nat.eqb_neq; lia).
  assert ((rows (im_planes src !!! 0%nat) =? 0)%nat = false) as -> by (apply Nat.eqb_neq; lia).
  split; [done|]. split; [done|].
  destruct (im_planes src) as [|p ps]; simpl in *; lia.
Qed.

Lemma convertTo_32F_size alpha h w m :
  has_size h w m → has_size h w (convertTo_32F alpha m).
Proof. apply mat_map_size. Qed.

Lemma Size_eqb_refl s : Size_eqb s s = true.
Proof. unfold Size_eqb. by rewrite !Nat.eqb_refl. Qed.

Lemma lookup_0_total {A} `{Inhabited A} (l : list A) :
  (0 < length l)%nat → l !! 0%nat = Some (l !!! 0%nat).
Proof. intros. by apply list_lookup_lookup_total_lt. Qed.

Section Setup.
Context `{OpenCV}.

Lemma initSrcAndJoint_done st src joint :
  src_ok src → joint_ok src joint →
  ∃ st1, initSrcAndJoint st src joint = Done st1 ∧
         config st1 = config st ∧
         srcSize st1 = im_size src ∧
         (0 < jointCnNum st1)%nat ∧ (0 < length (jointCn st1))%nat ∧
         has_size (height (im_size src)) (width (im_size src)) (jointCn st1 !!! 0%nat).
Proof.
  intros Hsrc Hj.
  destruct (src_ok_split src Hsrc) as (Hne & Hsp & Hlen).
  destruct Hsrc as (Hr & Hc & Hs).
  unfold initSrcAndJoint. cbv zeta. simpl.
  rewrite Hsp. unfold im_channels.
  rewrite (proj2 (Nat.ltb_ge _ _) (Nat.le_refl _)), andb_false_r.
  assert (im_size src = mkSize (cols (im_planes src !!! 0%nat))
                               (rows (im_planes src !!! 0%nat))) as Hsz by done.
  assert (∀ n (l : list (Mat R)), length (vec_resize n l) = n) as Hvr
    by (intros; apply length_resize).
  destruct (Depth_eqb (im_depth src) CV_32F) eqn:H32; simpl.
  - (* the source is 32F *)
    destruct joint as [|j]; simpl.
    + eexists. split; [done|]. simpl. rewrite Hsz. simpl. done.
    + destruct (im_empty j) eqn:Hje; simpl.
      * eexists. split; [done|]. simpl. rewrite Hsz. simpl. done.
      * destruct Hj as [Hj|[Hjs Hjd]]; [congruence|].
        unfold cv_split. rewrite Hje.
        destruct (has_size_dims _ _ _ Hjs Hr) as [Hjr Hjc].
        assert (0 < length (im_planes j))%nat as Hjl.
        { destruct (im_planes j); simpl in *; lia. }
        unfold mat_size. rewrite Hjr, Hjc. rewrite Hsz, Size_eqb_refl. simpl.
        destruct Hjd as [Hd|[Hd|Hd]]; rewrite Hd; simpl.
        -- eexists. split; [done|]. simpl.
           rewrite for_each_length. do 4 (split; [done|]).
           rewrite for_each_lookup by done. by apply convertTo_32F_size.
        -- eexists. split; [done|]. simpl.
           rewrite for_each_length. do 4 (split; [done|]).
           rewrite for_each_lookup by done. by apply convertTo_32F_size.
        -- eexists. split; [done|]. simpl. done.
  - (* the source is converted to 32F *)
    assert (has_size (rows (im_planes src !!! 0%nat)) (cols (im_planes src !!! 0%nat))
              (for_each (length (im_planes src))
                 (λ (i : nat) (_ : list (list R)),
                    convertTo_32F (getNormalizer (im_depth src))
                      (for_each (length (im_planes src))
                         (λ (_ : nat) (m : list (list R)), convertTo_32F 1 m)
                         (im_planes src) !!! i))
                 (vec_resize (length (im_planes src)) (jointCn st)) !!! 0%nat)) as Hconv.
    { rewrite for_each_lookup; [|done|by rewrite Hvr].
      rewrite for_each_lookup by done. by do 2 apply convertTo_32F_size. }
    destruct joint as [|j]; simpl.
    + eexists. split; [done|]. simpl. rewrite Hsz. simpl.
      do 3 (split; [done|]). rewrite for_each_length, Hvr. done.
    + destruct (im_empty j) eqn:Hje; simpl.
      * eexists. split; [done|]. simpl. rewrite Hsz. simpl.
        do 3 (split; [done|]). rewrite for_each_length, Hvr. done.
      * destruct Hj as [Hj|[Hjs Hjd]]; [congruence|].
        unfold cv_split. rewrite Hje.
        destruct (has_size_dims _ _ _ Hjs Hr) as [Hjr Hjc].
        assert (0 < length (im_planes j))%nat as Hjl.
        { destruct (im_planes j); simpl in *; lia. }
        unfold mat_size. rewrite Hjr, Hjc. rewrite Hsz, Size_eqb_refl. simpl.
        destruct Hjd as [Hd|[Hd|Hd]]; rewrite Hd; simpl.
        -- eexists. split; [done|]. simpl.
           rewrite for_each_length. do 4 (split; [done|]).
           rewrite for_each_lookup by done. by apply convertTo_32F_size.
        -- eexists. split; [done|]. simpl.
           rewrite for_each_length. do 4 (split; [done|]).
           rewrite for_each_lookup by done. by apply convertTo_32F_size.
        -- eexists. split; [done|]. simpl. done.
Qed.

Lemma initBuffers_done st src joint :
  src_ok src → joint_ok src joint →
  ∃ st1, initBuffers st src joint = Done st1 ∧
         config st1 = config st ∧
         srcSize st1 = im_size src ∧
         (0 < jointCnNum st1)%nat ∧ (0 < length (jointCn st1))%nat ∧
         has_size (height (im_size src)) (width (im_size src)) (jointCn st1 !!! 0%nat) ∧
         (adjust_outliers_ st1 = true →
          has_size (height (im_size src)) (width (im_size src))
            (minDistToManifoldSquared st1)).
Proof.
  intros Hsrc Hj.
  destruct (initSrcAndJoint_done st src joint Hsrc Hj)
    as (st1 & Hi & Hcfg & Hsz & Hn & Hl & Hs).
  unfold initBuffers. rewrite Hi. cbv zeta.
  assert (vec_resize (jointCnNum st1) (jointCn st1) !!! 0%nat = jointCn st1 !!! 0%nat) as Hr.
  { unfold vec_resize. by rewrite lookup_total_resize. }
  destruct (adjust_outliers_ _) eqn:Ha; simpl in Ha.
  - eexists. split; [done|]. simpl. split; [done|]. split; [done|]. split; [done|].
    split; [unfold vec_resize; rewrite length_resize; done|].
    split; [by rewrite Hr|]. intros _. rewrite Hsz. apply Mat_create_size.
  - eexists. split; [done|]. simpl. split; [done|]. split; [done|]. split; [done|].
    split; [unfold vec_resize; rewrite length_resize; done|].
    split; [by rewrite Hr|]. intros Ha'. congruence.
Qed.

Lemma seed_sample_some st :
  (0 < height (srcSize st))%nat → (0 < width (srcSize st))%nat →
  (0 < length (jointCn st))%nat →
  has_size (height (srcSize st)) (width (srcSize st)) (jointCn st !!! 0%nat) →
  ∃ v, seed_sample st = Some v.
Proof.
  intros Hh Hw Hl Hs. unfold seed_sample.
  rewrite lookup_0_total by done.
  assert (height (srcSize st) / 2 < height (srcSize st))%nat as Hy
    by (apply Nat.div_lt; lia).
  assert (width (srcSize st) / 2 < width (srcSize st))%nat as Hx
    by (apply Nat.div_lt; lia).
  destruct (has_size_at _ _ _ _ Hs Hy) as [Hy' Hrow].
  rewrite (list_lookup_lookup_total_lt _ _ Hy').
  rewrite list_lookup_lookup_total_lt by lia. eauto.
Qed.

Lemma gatherResult_constants st src : constants (gatherResult st src).2 = constants st.
Proof. unfold gatherResult. by destruct (adjust_outliers_ st). Qed.

Lemma gatherResult_visited st src : visited (gatherResult st src).2 = visited st.
Proof. unfold gatherResult. by destruct (adjust_outliers_ st). Qed.

Lemma resolved_height_pos st : (1 ≤ resolved_height st)%Z.
Proof.
  unfold resolved_height, computeManifoldTreeHeight.
  destruct (_ <=? _)%Z eqn:Ht; [lia|]. apply Z.leb_gt in Ht. lia.
Qed.

(** A call on a valid configuration and valid arrays runs the recursion from
    the all-ones root mask at level 1 and returns what [gatherResult]
    assembles. *)
Lemma filter_done st src joint :
  sigma_check st = true → src_ok src → joint_ok src joint →
  ∃ st0 eta0 st',
    buildManifoldsAndPerformFiltering (Z.to_nat (curTreeHeight st0)) st0 eta0
      (Mat_fill (height (im_size src)) (width (im_size src)) 255%Z) 1 = Some st' ∧
    filter st src joint = Done (gatherResult st' src) ∧
    srcSize st0 = im_size src ∧ visited st0 = [] ∧
    curTreeHeight st0 = resolved_height st ∧
    sigma_s_ st0 = sigma_s_ st ∧ sigma_r_ st0 = sigma_r_ st ∧
    num_pca_iterations_ st0 = Z.max 1 (num_pca_iterations_ st) ∧
    ∃ v, seed_sample st0 = Some v ∧ rnd st0 = seed_state v.
Proof.
  intros Hchk Hsrc Hj. unfold filter. rewrite Hchk. simpl.
  set (stc := set_num_pca_iterations_ _ st).
  destruct (initBuffers_done stc src joint Hsrc Hj)
    as (st1 & Hi & Hcfg & Hsz & Hn & Hl & Hs & _).
  rewrite Hi.
  assert (sigma_s_ st1 = sigma_s_ st ∧ sigma_r_ st1 = sigma_r_ st
          ∧ tree_height_ st1 = tree_height_ st
          ∧ num_pca_iterations_ st1 = Z.max 1 (num_pca_iterations_ st))
    as (Hss & Hsr & Hth & Hnp).
  { unfold config in Hcfg. simpl in Hcfg. repeat split; congruence. }
  set (st2 := set_sigma_r_over_sqrt_2 _ (set_curTreeHeight _ st1)).
  destruct Hsrc as (Hr & Hc & _).
  destruct (seed_sample_some st2) as [v Hv].
  { simpl. by rewrite Hsz. }
  { simpl. by rewrite Hsz. }
  { done. }
  { simpl. by rewrite Hsz. }
  rewrite Hv.
  set (st0 := set_visited [] (set_rnd (seed_state v) st2)).
  assert (curTreeHeight st0 = resolved_height st) as Hh.
  { simpl. unfold resolved_height. by rewrite Hth, Hss, Hsr. }
  pose proof (resolved_height_pos st) as Hpos.
  set (eta0 := for_each (jointCnNum st0)
                 (λ i e, h_filter (jointCn st0 !!! i) e (sigma_s_ st0))
                 (replicate (jointCnNum st0) [])).
  set (c0 := Mat_fill (height (im_size src)) (width (im_size src)) 255%Z).
  destruct (build_fuel (Z.to_nat (curTreeHeight st0)) st0 eta0 c0 1) as [st' Hb];
    [lia|lia|].
  exists st0, eta0, st'. split; [exact Hb|]. split.
  - match goal with
    | |- context [buildManifoldsAndPerformFiltering ?f ?s ?e ?c ?l] =>
        change (buildManifoldsAndPerformFiltering f s e c l)
          with (buildManifoldsAndPerformFiltering (Z.to_nat (curTreeHeight st0)) st0 eta0
                  (Mat_fill (height (srcSize st1)) (width (srcSize st1)) 255%Z) 1)
    end.
    rewrite Hsz. fold c0. by rewrite Hb.
  - do 6 (split; [done|]). exists v. split; [exact Hv|done].
Qed.

End Setup.

(** * The tree height *)






Lemma sigma_check_true st :
  sigma_s_ st >= 1 → 0 < sigma_r_ st <= 1 → sigma_check st = true.
Proof.
  intros Hs [Hr0 Hr1]. unfold sigma_check.
  destruct (Rge_dec _ 1); [|lra]. destruct (Rgt_dec _ 0); [|lra].
  destruct (Rle_dec _ 1); [done|lra].
Qed.

Lemma sigma_check_false st :
  sigma_s_ st < 1 ∨ sigma_r_ st <= 0 ∨ 1 < sigma_r_ st → sigma_check st = false.
Proof.
  intros Hs. unfold sigma_check.
  destruct (Rge_dec _ 1); [|done]. destruct (Rgt_dec _ 0); [|done].
  destruct (Rle_dec _ 1); [lra|done].
Qed.

Section FilterTheorems.
Context `{OpenCV}.

(** The members that stay as the recursion found them, after a call that
    returns. *)
Lemma filter_done_frame st src joint :
  sigma_check st = true → src_ok src → joint_ok src joint →
  ∃ dst st' t,
    filter st src joint = Done (dst, st') ∧
    curTreeHeight st' = resolved_height st ∧
    srcSize st' = im_size src ∧
    visited st' = t ∧
    trace_of (height (im_size src)) (width (im_size src)) (resolved_height st)
      (Mat_fill (height (im_size src)) (width (im_size src)) 255%Z) 1 t.
Proof.
  intros Hc Hsrc Hj.
  destruct (filter_done st src joint Hc Hsrc Hj)
    as (st0 & eta0 & st1 & Hb & Hf & Hsz & Hv & Hh & _).
  pose proof (build_constants _ _ _ _ _ _ Hb) as Hc1.
  pose proof (gatherResult_constants st1 src) as Hc2.
  pose proof (gatherResult_visited st1 src) as Hv2.
  apply build_trace in Hb as (t & Ht & Htr).
  - exists (gatherResult st1 src).1, (gatherResult st1 src).2, t.
    split; [by rewrite Hf; destruct (gatherResult st1 src)|].
    unfold constants in Hc1, Hc2.
    split; [congruence|]. split; [congruence|]. split.
    + rewrite Hv2, Ht, Hv. done.
    + by rewrite Hsz, Hh in Htr.
  - rewrite Hsz. split; [apply Mat_fill_size|].
    intros y x Hy Hx. unfold at2, Mat_fill.
    rewrite !lookup_total_replicate_2 by done. lia.
Qed.


(** C7, as amended.  A call of [filter] with [sigma_s < 1] or [sigma_r]
    outside (0,1] fails on the precondition before anything is allocated:
    the object is left as it was and no output is produced. *)
Theorem filter_rejects_bad_sigma (st : AMF) (src : Image) (joint : Joint) :
  sigma_s_ st < 1 ∨ sigma_r_ st <= 0 ∨ 1 < sigma_r_ st →
  filter st src joint = Raise st.
Proof.
  intros Hs. unfold filter. by rewrite (sigma_check_false st Hs).
Qed.

(** C9.  With [num_pca_iterations <= 0] a call of [filter] does not fail on
    that account: the value is clamped to 1, the call has the outcome and the
    output of the call with [num_pca_iterations = 1] (and leaves the same
    object once the precondition on the sigmas holds), and on a valid
    configuration and valid arrays it returns. *)
Theorem filter_clamps_pca_iterations (st : AMF) (src : Image) (joint : Joint) (n : Z) :
  (n ≤ 0)%Z →
  outcome (filter (set_num_pca_iterations_ n st) src joint)
  = outcome (filter (set_num_pca_iterations_ 1 st) src joint) ∧
  (sigma_check st = true →
   filter (set_num_pca_iterations_ n st) src joint
   = filter (set_num_pca_iterations_ 1 st) src joint) ∧
  (sigma_check st = true → src_ok src → joint_ok src joint →
   ∃ dst st', filter (set_num_pca_iterations_ n st) src joint = Done (dst, st')
              ∧ num_pca_iterations_ st' = 1%Z).
Proof.
  intros Hn.
  assert (sigma_check st = true →
          filter (set_num_pca_iterations_ n st) src joint
          = filter (set_num_pca_iterations_ 1 st) src joint) as Heq.
  { intros Hc. unfold filter.
    change (sigma_check (set_num_pca_iterations_ n st)) with (sigma_check st).
    change (sigma_check (set_num_pca_iterations_ 1 st)) with (sigma_check st).
    rewrite Hc. simpl.
    replace (Z.max 1 n) with 1%Z by lia. reflexivity. }
  split; [|split; [done|]].
  - destruct (sigma_check st) eqn:Hc; [by rewrite Heq|].
    unfold filter.
    change (sigma_check (set_num_pca_iterations_ n st)) with (sigma_check st).
    change (sigma_check (set_num_pca_iterations_ 1 st)) with (sigma_check st).
    by rewrite Hc.
  - intros Hc Hsrc Hj. rewrite (Heq Hc).
    destruct (filter_done (set_num_pca_iterations_ 1 st) src joint Hc Hsrc Hj)
      as (st0 & eta0 & st1 & Hb & Hf & _ & _ & _ & _ & _ & Hnp & _).
    exists (gatherResult st1 src).1, (gatherResult st1 src).2.
    split; [by rewrite Hf; destruct (gatherResult st1 src)|].
    pose proof (build_constants _ _ _ _ _ _ Hb) as Hc1.
    pose proof (gatherResult_constants st1 src) as Hc2.
    unfold constants in Hc1, Hc2. simpl in Hnp.
    transitivity (num_pca_iterations_ st0); [congruence|done].
Qed.

End FilterTheorems.

(** * A degenerate eigenvector *)

Lemma dot_zero u v n : (∀ c, v !!! c = 0) → dot u v n = 0.
Proof.
  intros Hv. unfold dot. generalize (seq 0 n). intros l.
  assert (∀ s, s = 0 → fold_left (λ dots c, dots + u !!! c * v !!! c) l s = 0) as Hs.
  { induction l as [|c l IH]; intros s Hs; simpl; [done|].
    apply IH. rewrite Hv, Hs. ring. }
  by apply Hs.
Qed.

Lemma lookup_total_all_zero (v : list R) :
  Forall (λ x, x = 0) v → ∀ c, v !!! c = 0.
Proof.
  intros Hv c. rewrite list_lookup_total_alt.
  destruct (v !! c) as [x|] eqn:Hc; [|done].
  simpl. by apply (proj1 (Forall_lookup _ _) Hv c).
Qed.

Lemma mat_reshape_all {A} (P : A → Prop) (m : Mat A) r :
  Forall P (concat m) → Forall (Forall P) (mat_reshape m r).
Proof.
  intros Hm. unfold mat_reshape. apply Forall_fmap, Forall_forall.
  intros y _. simpl. by apply Forall_take, Forall_drop.
Qed.

Lemma at2_all {A} `{Inhabited A} (P : A → Prop) (m : Mat A) y x :
  Forall (Forall P) m → (y < length m)%nat → (x < length (m !!! y))%nat →
  P (at2 m y x).
Proof.
  intros Hm Hy Hx. unfold at2.
  apply (proj1 (Forall_lookup _ _) (proj1 (Forall_lookup _ _) Hm y (m !!! y)
           (list_lookup_lookup_total_lt _ _ Hy)) x).
  by apply list_lookup_lookup_total_lt.
Qed.

Section Degenerate.
Context `{OpenCV}.

Lemma computeEigenVector_zero_norm X mask n rand_vec :
  cv_norm (power_iteration X mask n rand_vec) = 0 →
  Forall (λ x, x = 0) (computeEigenVector X mask n rand_vec).
Proof.
  intros Hn. unfold computeEigenVector. cbv zeta. rewrite Hn.
  apply Forall_fmap, Forall_forall. intros x _. simpl. apply cv_div_zero.
Qed.

Lemma difOrientation_zero st v y x :
  Forall (λ x, x = 0) v →
  (y < height (srcSize st))%nat → (x < width (srcSize st))%nat →
  at2 (difOrientation st v) y x = 0.
Proof.
  intros Hv Hy Hx.
  pose proof (difOrientation_size st v) as Hs.
  destruct (has_size_at _ _ _ y Hs Hy) as [Hy' Hrow].
  apply (at2_all (λ x, x = 0)); [|done|lia].
  unfold difOrientation. apply mat_reshape_all.
  apply Forall_concat, Forall_fmap, Forall_forall. intros row _. simpl.
  constructor; [|done]. apply dot_zero. by apply lookup_total_all_zero.
Qed.

End Degenerate.

Section ClusterTheorems.
Context `{OpenCV}.

(** C3.  For every parent mask (a byte mask of [srcSize]) [computeClusters]
    produces [cluster_minus = mask ∧ (o < 0)] and
    [cluster_plus = mask ∧ (o ≥ 0)], so a pixel with [o = 0] goes to the plus
    branch, the two child masks are disjoint and their union is the parent
    mask; and in a call of [filter] that passes the set-up, at every tree
    level from 1 to the tree height the masks of the calls at that level are
    pairwise disjoint and their union is the all-ones root mask. *)
Theorem cluster_partition (st : AMF) (src : Image) (joint : Joint) :
  sigma_check st = true → src_ok src → joint_ok src joint →
  (∀ (s : AMF) (cluster : Mat Z) (y x : nat),
     mask_ok (height (srcSize s)) (width (srcSize s)) cluster →
     (y < height (srcSize s))%nat → (x < width (srcSize s))%nat →
     let o := at2 (projection s cluster) y x in
     let minus := at2 (computeClusters s cluster).1.1 y x in
     let plus := at2 (computeClusters s cluster).1.2 y x in
     minus = (if Rlt_dec o 0 then at2 cluster y x else 0%Z) ∧
     plus = (if Rge_dec o 0 then at2 cluster y x else 0%Z) ∧
     (o = 0 → plus = at2 cluster y x ∧ minus = 0%Z) ∧
     Z.land minus plus = 0%Z ∧ Z.lor minus plus = at2 cluster y x) ∧
  ∃ dst st',
    filter st src joint = Done (dst, st') ∧
    ∀ L, (1 ≤ L ≤ curTreeHeight st')%Z →
      let ms := level_masks L (visited st') in
      ms ≠ [] ∧
      (∀ i j mi mj y x,
         ms !! i = Some mi → ms !! j = Some mj → i ≠ j →
         (y < height (im_size src))%nat → (x < width (im_size src))%nat →
         Z.land (at2 mi y x) (at2 mj y x) = 0%Z) ∧
      (∀ y x,
         (y < height (im_size src))%nat → (x < width (im_size src))%nat →
         foldr Z.lor 0%Z ((λ m, at2 m y x) <$> ms) = 255%Z).
Proof.
  intros Hc Hsrc Hj. split.
  - intros s cluster y x Hm Hy Hx o minus plus.
    destruct (computeClusters_lookup s cluster y x (proj1 Hm) Hy Hx) as [Hmi Hpl].
    fold o in Hmi, Hpl. fold minus in Hmi. fold plus in Hpl.
    pose proof (proj2 Hm y x Hy Hx) as Hb.
    pose proof (land_255_byte _ Hb) as H255.
    rewrite Hmi, Hpl.
    destruct (Rlt_dec o 0) as [Hlt|Hnlt]; destruct (Rge_dec o 0) as [Hge|Hnge];
      try lra;
      repeat (rewrite H255 || rewrite Z.land_0_l || rewrite Z.land_0_r
              || rewrite Z.lor_0_l || rewrite Z.lor_0_r).
    + split; [done|]. split; [done|]. split; [intros; lra|]. done.
    + split; [done|]. split; [done|]. split; done.
  - destruct (filter_done_frame st src joint Hc Hsrc Hj)
      as (dst & st' & t & Hf & Hh & Hsz & Hv & Htr).
    exists dst, st'. split; [done|]. intros L HL ms.
    assert (∀ y x, (y < height (im_size src))%nat → (x < width (im_size src))%nat →
              exactly_one ms
                (Mat_fill (height (im_size src)) (width (im_size src)) 255%Z) y x) as Hone.
    { intros y x Hy Hx. unfold ms. rewrite Hv.
      eapply trace_partition; [exact Htr|lia|left; lia|done|done]. }
    assert (∀ y x, (y < height (im_size src))%nat → (x < width (im_size src))%nat →
              at2 (Mat_fill (height (im_size src)) (width (im_size src)) 255%Z) y x
              = 255%Z) as Hroot.
    { intros y x Hy Hx. unfold at2, Mat_fill.
      by rewrite !lookup_total_replicate_2. }
    destruct Hsrc as (Hr & Hcs & _).
    split; [|split].
    + destruct (Hone 0%nat 0%nat) as (i & m & Hi & _); [done|done|].
      intros Hnil. by rewrite Hnil in Hi.
    + intros i j mi mj y x Hi Hj' Hne Hy Hx.
      by eapply exactly_one_disjoint; [apply Hone| | |].
    + intros y x Hy Hx. rewrite (exactly_one_union _ _ _ _ (Hone y x Hy Hx)).
      by apply Hroot.
Qed.

(** C8.  When the vector left by the power iteration has norm zero, the
    eigenvector is the zero vector, the projection of every pixel is 0, every
    pixel of the parent mask goes to the plus branch and the minus branch is
    empty; and the recursion entered at a level up to the tree height returns
    with no call deeper than the tree height. *)
Theorem zero_norm_split (st : AMF) (cluster : Mat Z) :
  let h := height (srcSize st) in
  let w := width (srcSize st) in
  mask_ok h w cluster →
  cv_norm (power_iteration (difEtaSrc st) cluster
             (num_pca_iterations_ st) (initVec st).1) = 0 →
  Forall (λ v, v = 0)
    (computeEigenVector (difEtaSrc st) cluster (num_pca_iterations_ st) (initVec st).1) ∧
  (∀ y x, (y < h)%nat → (x < w)%nat →
     at2 (projection st cluster) y x = 0 ∧
     at2 (computeClusters st cluster).1.2 y x = at2 cluster y x ∧
     at2 (computeClusters st cluster).1.1 y x = 0%Z) ∧
  (∀ eta lvl, (lvl ≤ curTreeHeight st)%Z →
     ∃ st' t,
       buildManifoldsAndPerformFiltering
         (Z.to_nat (curTreeHeight st - lvl + 1)) st eta cluster lvl = Some st' ∧
       visited st' = visited st ++ t ∧
       Forall (λ e, (lvl ≤ e.1 ≤ curTreeHeight st)%Z) t).
Proof.
  intros h w Hm Hn.
  pose proof (computeEigenVector_zero_norm _ _ _ _ Hn) as Hz.
  assert (num_pca_iterations_ (initVec st).2 = num_pca_iterations_ st) as Hnp.
  { pose proof (initVec_constants st) as Hc. unfold constants in Hc. congruence. }
  split; [done|]. split.
  - intros y x Hy Hx.
    assert (at2 (projection st cluster) y x = 0) as Ho.
    { unfold projection. rewrite Hnp.
      apply difOrientation_zero; [done| |]; by rewrite initVec_srcSize. }
    split; [done|].
    destruct (computeClusters_lookup st cluster y x (proj1 Hm) Hy Hx) as [-> ->].
    rewrite Ho. pose proof (proj2 Hm y x Hy Hx) as Hb.
    destruct (Rlt_dec 0 0) as [Hlt|_]; [lra|].
    destruct (Rge_dec 0 0) as [_|Hnge]; [|lra].
    split; [by apply land_255_byte|apply Z.land_0_l].
  - intros eta lvl Hl.
    destruct (build_fuel (Z.to_nat (curTreeHeight st - lvl + 1)) st eta cluster lvl)
      as [st' Hb]; [lia|lia|].
    pose proof Hb as Hb'. apply build_trace in Hb' as (t & Hv & Htr); [|done].
    exists st', t. split; [done|]. split; [done|].
    pose proof (trace_levels _ _ _ _ _ _ Htr) as H1.
    pose proof (trace_levels_le _ _ _ _ _ _ Htr) as H2.
    apply Forall_forall. intros e He.
    rewrite Forall_forall in H1, H2.
    specialize (H1 e He). specialize (H2 e He). simpl in *. lia.
Qed.

End ClusterTheorems.

(** * What a node reads of the object *)









Section Node.
Context `{OpenCV}.

Lemma upsample_vec_fresh st eta d1 d2' :
  upsample_vec st eta d1 = upsample_vec st eta d2'.
Proof.
  unfold upsample_vec, vec_resize.
  rewrite !for_each_overwrite by apply length_resize. done.
Qed.








End Node.

Section MinDistOff.
Context `{OpenCV}.









End MinDistOff.



Section InitAgree.
Context `{OpenCV}.


End InitAgree.

Section Determinism.
Context `{OpenCV}.

Lemma filter_unfold st src joint :
  filter st src joint =
  if negb (sigma_check st) then Raise st
  else
    match initBuffers
            (set_num_pca_iterations_ (Z.max 1 (num_pca_iterations_ st)) st) src joint with
    | Done a =>
        match seed_sample a with
        | None => Undefined
        | Some v =>
            match buildManifoldsAndPerformFiltering (Z.to_nat (resolved_height a))
                    (entry a v) (root_eta a)
                    (Mat_fill (height (srcSize a)) (width (srcSize a)) 255%Z) 1 with
            | Some st' => Done (gatherResult st' src)
            | None => OutOfFuel
            end
        end
    | Raise s => Raise s
    | Undefined => Undefined
    | OutOfFuel => OutOfFuel
    end.
Proof. reflexivity. Qed.










(** The recursion never runs out of the fuel that [filter] gives it. *)
Lemma filter_fuel st src joint : filter st src joint ≠ OutOfFuel.
Proof.
  rewrite filter_unfold.
  destruct (negb (sigma_check st)); [done|].
  destruct (initBuffers _ src joint) as [a| | |] eqn:Hi; try done.
  - destruct (seed_sample a) as [v|]; [|done].
    pose proof (resolved_height_pos a) as Hp.
    destruct (build_fuel (Z.to_nat (resolved_height a)) (entry a v) (root_eta a)
                (Mat_fill (height (srcSize a)) (width (srcSize a)) 255%Z) 1) as [s Hs].
    + lia.
    + change (curTreeHeight (entry a v)) with (resolved_height a). lia.
    + change (curTreeHeight (entry a v)) with (resolved_height a).
      rewrite Hs. by destruct (gatherResult s src).
  - exfalso. revert Hi. unfold initBuffers.
    destruct (initSrcAndJoint _ src joint) as [b| | |] eqn:Hj; try done.
    + cbv zeta. by destruct (adjust_outliers_ _).
    + revert Hj. unfold initSrcAndJoint. cbv zeta.
      repeat (match goal with
              | |- context [if ?c then _ else _] => destruct c
              end); done.
Qed.


End Determinism.

(** * The statements on sample arguments *)

Lemma sigma_check_new : sigma_check AMF_new = true.
Proof. apply sigma_check_true; simpl; lra. Qed.

Lemma src_ok_1x1 : src_ok image_1x1.
Proof.
  unfold src_ok. simpl. split; [lia|]. split; [lia|].
  split; [reflexivity|]. repeat constructor.
Qed.

Lemma has_size_1x1 {A} (v : A) : has_size 1 1 [[v]].
Proof. split; [reflexivity|]. repeat constructor. Qed.


Lemma gatherResult_spec_witness :
  at2 (im_planes (@gatherResult plain_cv amf_sums image_1x1).1 !!! 0%nat) 0 0 = cv_div 6 3.
Proof.
  destruct (@gatherResult_spec plain_cv amf_sums image_1x1 0 0 0) as (_ & _ & Hb & _).
  - simpl; lia.
  - simpl; lia.
  - simpl; lia.
  - apply has_size_1x1.
  - apply has_size_1x1.
  - exact (Hb eq_refl).
Defined.

Lemma h_filter_constant_witness : at2 (h_filter [[2; 2]] [] 1) 0 1 = 2.
Proof.
  apply (h_filter_constant [[2; 2]] [] 1 2).
  - intros y x Hy Hx.
    destruct y as [|y]; [|simpl in Hy; lia].
    destruct x as [|[|x]]; [reflexivity|reflexivity|simpl in Hx; lia].
  - simpl; lia.
  - simpl; lia.
Defined.

Lemma cluster_partition_witness :
  ∃ dst st', @filter plain_cv AMF_new image_1x1 JointIsSrc = Done (dst, st').
Proof.
  destruct (@cluster_partition plain_cv AMF_new image_1x1 JointIsSrc)
    as [_ (dst & st' & Hf & _)].
  - exact sigma_check_new.
  - exact src_ok_1x1.
  - exact I.
  - exists dst, st'. exact Hf.
Defined.



Lemma filter_rejects_bad_sigma_witness :
  @filter plain_cv (set_sigma_s_ (1 / 2) AMF_new) image_1x1 JointIsSrc
  = Raise (set_sigma_s_ (1 / 2) AMF_new).
Proof.
  apply (@filter_rejects_bad_sigma plain_cv (set_sigma_s_ (1 / 2) AMF_new)).
  left. simpl. lra.
Defined.

Lemma zero_norm_split_witness :
  at2 (@computeClusters plain_cv amf_1x1 [[255%Z]]).1.2 0 0 = 255%Z
  ∧ at2 (@computeClusters plain_cv amf_1x1 [[255%Z]]).1.1 0 0 = 0%Z.
Proof.
  destruct (@zero_norm_split plain_cv amf_1x1 [[255%Z]]) as (_ & Hp & _).
  - split; [apply has_size_1x1|].
    intros y x Hy Hx. simpl in Hy, Hx.
    destruct y as [|y]; [|lia]. destruct x as [|x]; [|lia].
    unfold at2. simpl. lia.
  - unfold cv_norm. simpl. unfold dot, at2. simpl.
    match goal with |- sqrt ?e = 0 => replace e with 0 by ring end.
    apply sqrt_0.
  - destruct (Hp 0%nat 0%nat) as (_ & Hplus & Hminus); [simpl; lia|simpl; lia|].
    split; [exact Hplus|exact Hminus].
Defined.

Lemma filter_clamps_pca_iterations_witness :
  outcome (@filter plain_cv (set_num_pca_iterations_ (-3) AMF_new) image_1x1 JointIsSrc)
  = outcome (@filter plain_cv (set_num_pca_iterations_ 1 AMF_new) image_1x1 JointIsSrc).
Proof.
  apply (@filter_clamps_pca_iterations plain_cv AMF_new image_1x1 JointIsSrc (-3)).
  lia.
Defined.

(** An empty source passes the precondition of [filter]: the call goes on
    into the set-up, where it reads outside [srcCn]. *)
Lemma filter_accepts_empty_src :
  im_empty image_empty = true ∧
  sigma_check AMF_new = true ∧
  @filter plain_cv AMF_new image_empty JointIsSrc = Undefined ∧
  ¬ ∃ st', @filter plain_cv AMF_new image_empty JointIsSrc = Raise st'.
Proof.
  assert (@filter plain_cv AMF_new image_empty JointIsSrc = Undefined) as Hf.
  { unfold filter. rewrite sigma_check_new. reflexivity. }
  split; [reflexivity|]. split; [exact sigma_check_new|]. split; [exact Hf|].
  intros [st' Hr]. rewrite Hf in Hr. discriminate.
Qed.
